(** * DNA assembly for the swarm agents ([swarm/assemble-dna.py])

    A shallow embedding of the [DNAAssembler] class: the placeholder
    substituter, the three role assemblers, the document composer and the
    batch driver, followed by the properties of the assembly engine.

    Texts are [string]s.  The files under the swarm directory, the clock
    read by [datetime.now()] and the outcome of writing a file are kept in
    an explicit environment; the clock position and the files written so
    far are threaded as state, and Python exceptions are an explicit
    outcome. *)

From Stdlib Require Import String Ascii List ZArith Lia Bool.
Import ListNotations.
Open Scope string_scope.

(** ** Python built-ins used by the assembler *)

Module Py.

(** The one-character text ["\n"]. *)
Definition nl : string := String "010"%char "".

(** [s[n:]]. *)
Fixpoint drop (n : nat) (s : string) : string :=
  match n, s with
  | 0, _ => s
  | S _, "" => ""
  | S k, String _ s' => drop k s'
  end.

(** [s[:n]]. *)
Fixpoint take (n : nat) (s : string) : string :=
  match n, s with
  | 0, _ => ""
  | S _, "" => ""
  | S k, String c s' => String c (take k s')
  end.

(** [s.rfind(".")], with [None] for -1. *)
Fixpoint rfind_dot (s : string) : option nat :=
  match s with
  | "" => None
  | String c s' =>
      match rfind_dot s' with
      | Some i => Some (S i)
      | None => if (c =? ".")%char then Some 0 else None
      end
  end.

(** [PurePath(name).stem] for a file name: the name up to its last dot,
    and the whole name when it has no dot or when its last dot is its
    first or its last character. *)
Definition stem (name : string) : string :=
  match rfind_dot name with
  | Some i =>
      if (0 <? i)%nat && (i <? String.length name - 1)%nat
      then take i name
      else name
  | None => name
  end.

(** [s.replace(old, new)] for a non-empty [old]: the text is scanned from
    the left; where [old] starts, [new] is emitted and the scan resumes
    after the occurrence ([skip] counts the characters of the occurrence
    still to pass over), so the replaced occurrences never overlap and
    what was emitted is never scanned again. *)
Fixpoint replace_from (old new : string) (skip : nat) (s : string) : string :=
  match s with
  | "" => ""
  | String c s' =>
      match skip with
      | S k => replace_from old new k s'
      | 0 =>
          if prefix old s
          then new ++ replace_from old new (String.length old - 1) s'
          else String c (replace_from old new 0 s')
      end
  end.

(** [s.replace("", new)]: [new] before every character and at the end. *)
Fixpoint interleave (new s : string) : string :=
  match s with
  | "" => new
  | String c s' => new ++ String c (interleave new s')
  end.

Definition replace (s old new : string) : string :=
  match old with
  | "" => interleave new s
  | _ => replace_from old new 0 s
  end.

(** [sep.join(ls)]. *)
Definition join (sep : string) (ls : list string) : string :=
  String.concat sep ls.

(** [sub in s]. *)
Fixpoint contains (sub s : string) : bool :=
  prefix sub s ||
  match s with
  | "" => false
  | String _ s' => contains sub s'
  end.

(** [s.endswith(suffix)]. *)
Definition endswith (s suffix : string) : bool :=
  (String.length suffix <=? String.length s)%nat &&
  (drop (String.length s - String.length suffix) s =? suffix).

(** [l.insert(i, x)]: a negative index counts from the end, and an index
    out of range is clamped to the ends of the list. *)
Definition insert {A : Type} (l : list A) (i : Z) (x : A) : list A :=
  let n := Z.of_nat (List.length l) in
  let j := if (i <? 0)%Z then Z.max 0 (i + n) else Z.min i n in
  (firstn (Z.to_nat j) l ++ x :: skipn (Z.to_nat j) l)%list.

(** The truth value of a text: a text is true unless it is empty. *)
Definition truthy (s : string) : bool := negb (s =? "").

(** A value held by a variable mapping or by a specialization record.
    The assembler looks at such a value through [str()] and string
    formatting only, so a value that is not a text (a YAML number,
    boolean, null, sequence or nested mapping) is kept as the text
    [str()] gives for it. *)
Inductive value : Type :=
| VStr (s : string)
| VObj (shown : string).

Definition str (v : value) : string :=
  match v with
  | VStr s => s
  | VObj shown => shown
  end.

(** A [dict] with text keys, in insertion order. *)
Definition dict : Type := list (string * value).

Fixpoint dict_get (d : dict) (key : string) (default : value) : value :=
  match d with
  | [] => default
  | (k, v) :: d' => if k =? key then v else dict_get d' key default
  end.

Definition keys (d : dict) : list string := map fst d.

Inductive exn : Type :=
| AttributeError
| YAMLError
| OSError.

End Py.

Import Py.

(** ** The swarm directory and the state of a run *)

(** What [yaml.safe_load] makes of a specialization file: a mapping, or some
    other document ([None] for an empty file, a scalar, a sequence), which
    has no [get] method. *)
Inductive yaml_doc : Type :=
| YDict (d : dict)
| YNotDict.

(** A file of the specializations directory: one that [yaml.safe_load]
    rejects, or one that it loads. *)
Inductive yaml_file : Type :=
| Malformed
| Parsed (doc : yaml_doc).

Record Env : Type := {
  (** [components/<name>.md]: the text of each file that exists. *)
  components_dir : string -> option string;
  (** [specializations/<name>.yaml], in the order [glob] lists them. *)
  specializations_dir : list (string * yaml_file);
  (** The text of [datetime.now().isoformat()] at each successive call. *)
  clock : nat -> string;
  (** Whether [dna/<filename>] can be created and written. *)
  writable : string -> bool
}.

Record World : Type := {
  (** The number of calls of [datetime.now()] so far. *)
  ticks : nat;
  (** The files written under [dna/], oldest first. *)
  written : list (string * string)
}.

Inductive outcome (A : Type) : Type :=
| Ok (a : A) (w : World)
| Raise (e : exn) (w : World).

Arguments Ok {A} a w.
Arguments Raise {A} e w.

Definition M (A : Type) : Type := World -> outcome A.

Definition ret {A : Type} (a : A) : M A := fun w => Ok a w.

Definition raise {A : Type} (e : exn) : M A := fun w => Raise e w.

Definition bind {A B : Type} (m : M A) (f : A -> M B) : M B :=
  fun w =>
    match m w with
    | Ok a w' => f a w'
    | Raise e w' => Raise e w'
    end.

Notation "x <- m ;; k" := (bind m (fun x => k))
  (at level 61, m at next level, right associativity).
Notation "m ;; k" := (bind m (fun _ => k))
  (at level 61, right associativity).

(** [for x in xs: body(x)]. *)
Fixpoint for_each {A : Type} (xs : list A) (body : A -> M unit) : M unit :=
  match xs with
  | [] => ret tt
  | x :: xs' => body x ;; for_each xs' body
  end.

Definition datetime_now (env : Env) : M string :=
  fun w => Ok (clock env (ticks w))
              {| ticks := S (ticks w); written := written w |}.

Fixpoint lookup_file (files : list (string * yaml_file)) (name : string)
  : option yaml_file :=
  match files with
  | [] => None
  | (n, f) :: files' => if n =? name then Some f else lookup_file files' name
  end.

(** ** The assembler *)

Definition load_component (env : Env) (name : string) : string :=
  match components_dir env name with
  | Some text => text
  | None => ""
  end.

Definition load_specialization (env : Env) (name : string) : M yaml_doc :=
  match lookup_file (specializations_dir env) name with
  | Some (Parsed doc) => ret doc
  | Some Malformed => raise YAMLError
  | None => ret (YDict [])
  end.

(** [spec_data.get(key, default)]. *)
Definition get (spec_data : yaml_doc) (key : string) (default : value)
  : M value :=
  match spec_data with
  | YDict d => ret (dict_get d key default)
  | YNotDict => raise AttributeError
  end.

Definition placeholder (key : string) : string := "{{" ++ key ++ "}}".

Definition substitute_variables (content : string) (variables : dict)
  : string :=
  fold_left
    (fun content kv => replace content (placeholder (fst kv)) (str (snd kv)))
    variables content.

Definition protocol_reference : string :=
  nl ++ "## SWARM PROTOCOL" ++ nl ++ nl ++
  "Follow the swarm protocol defined in `swarm/component/protocol.md` for task management, workspace isolation, and coordination rules.".

(** The loop of [_assemble_dna]: the substituted text of every component
    that loads to a non-empty text, appended to [sections] in turn. *)
Fixpoint collect_sections (env : Env) (components : list string)
  (variables : dict) (sections : list string) : list string :=
  match components with
  | [] => sections
  | component :: rest =>
      let content := load_component env component in
      if truthy content
      then collect_sections env rest variables
             (sections ++ [substitute_variables content variables])%list
      else collect_sections env rest variables sections
  end.

Definition _assemble_dna (env : Env) (components : list string)
  (variables : dict) : string :=
  let sections := collect_sections env components variables [] in
  let sections := (sections ++ [protocol_reference])%list in
  join (nl ++ nl) sections.

Definition queen_components : list string :=
  [ "base-header"; "prime-directive"; "sub-agent-context"; "project-context";
    "queen-capabilities"; "workflow-start"; "queen-output" ]%list.

Definition queen_variables (timestamp : string) : dict :=
  [ ("AGENT_TYPE", VStr "Queen");
    ("AGENT_ID", VStr "zen-queen");
    ("TIMESTAMP", VStr timestamp);
    ("SPECIALIZATION", VStr "Strategic Coordination");
    ("PRIME_DIRECTIVE", VStr "Lead the swarm to successfully implement the ZEN language interpreter by analyzing project state, identifying critical paths, and recommending optimal task assignments. You coordinate but do NOT implement code.");
    ("TOOL_ACCESS", VStr "Read, Bash (for make vision/enforce)") ]%list.

Definition assemble_queen_dna (env : Env) : M string :=
  timestamp <- datetime_now env ;;
  ret (_assemble_dna env queen_components (queen_variables timestamp)).

Definition architect_components : list string :=
  [ "base-header"; "prime-directive"; "sub-agent-context"; "project-context";
    "architect-capabilities"; "workflow-start"; "coding-standards";
    "architect-output" ]%list.

Definition architect_variables (timestamp : string) : dict :=
  [ ("AGENT_TYPE", VStr "Architect");
    ("AGENT_ID", VStr "zen-architect");
    ("TIMESTAMP", VStr timestamp);
    ("SPECIALIZATION", VStr "System Design");
    ("PRIME_DIRECTIVE", VStr "Design the technical architecture of ZEN language components, creating clear specifications that workers can implement without ambiguity. You design but do NOT implement code.");
    ("TOOL_ACCESS", VStr "Read, Write (for design docs)") ]%list.

Definition assemble_architect_dna (env : Env) : M string :=
  timestamp <- datetime_now env ;;
  ret (_assemble_dna env architect_components (architect_variables timestamp)).

Definition worker_base_components : list string :=
  [ "base-header"; "prime-directive"; "sub-agent-context"; "project-context";
    "worker-capabilities"; "workflow-start"; "coding-standards";
    "worker-output" ]%list.

Definition worker_components (specialization : string) : list string :=
  if negb (specialization =? "general")
  then insert worker_base_components (-1) "worker-specializations"
  else worker_base_components.

Definition worker_prime_directive (description : value) : string :=
  "Transform architectural designs into working code that strictly adheres to MANIFEST.json specifications. You are specialized in "
  ++ str description
  ++ ". You implement with precision but do NOT make architectural decisions.".

Definition worker_variables (specialization timestamp : string)
  (description details focus_areas key_patterns : value) : dict :=
  [ ("AGENT_TYPE", VStr "Worker");
    ("AGENT_ID", VStr ("zen-worker-" ++ specialization));
    ("TIMESTAMP", VStr timestamp);
    ("SPECIALIZATION", VStr specialization);
    ("PRIME_DIRECTIVE", VStr (worker_prime_directive description));
    ("TOOL_ACCESS", VStr "Read, Edit, MultiEdit, Bash");
    ("SPECIALIZATION_DETAILS", details);
    ("FOCUS_AREAS", focus_areas);
    ("KEY_PATTERNS", key_patterns) ]%list.

Definition assemble_worker_dna (env : Env) (specialization : string)
  : M string :=
  let components := worker_components specialization in
  spec_data <- (if negb (specialization =? "general")
                then load_specialization env specialization
                else ret (YDict [])) ;;
  timestamp <- datetime_now env ;;
  description <- get spec_data "description" (VStr "general implementation") ;;
  details <- get spec_data "details" (VStr "") ;;
  focus_areas <- get spec_data "focus_areas" (VStr "") ;;
  key_patterns <- get spec_data "key_patterns" (VStr "") ;;
  ret (_assemble_dna env components
         (worker_variables specialization timestamp
            description details focus_areas key_patterns)).

(** The file name [save_dna] chooses for a document. *)
Definition dna_filename (role : string) (specialization : option string)
  : string :=
  match specialization with
  | Some s =>
      if (role =? "worker") && truthy s
      then role ++ "-" ++ s ++ ".md"
      else role ++ ".md"
  | None => role ++ ".md"
  end.

(** [save_dna]: the write either stores the whole text or raises and stores
    nothing; the progress line it prints is left out. *)
Definition save_dna (env : Env) (role content : string)
  (specialization : option string) : M unit :=
  let filename := dna_filename role specialization in
  fun w =>
    if writable env filename
    then Ok tt {| ticks := ticks w;
                  written := (written w ++ [(filename, content)])%list |}
    else Raise OSError w.

(** [specializations_dir.glob("*.yaml")]: every file of the directory,
    under its full name. *)
Definition glob_yaml (env : Env) : list string :=
  map (fun nf => fst nf ++ ".yaml") (specializations_dir env).

Definition assemble_all (env : Env) : M unit :=
  queen_dna <- assemble_queen_dna env ;;
  save_dna env "queen" queen_dna None ;;
  architect_dna <- assemble_architect_dna env ;;
  save_dna env "architect" architect_dna None ;;
  worker_dna <- assemble_worker_dna env "general" ;;
  save_dna env "worker" worker_dna (Some "general") ;;
  for_each (glob_yaml env)
    (fun spec_file =>
       let spec_name := stem spec_file in
       worker_dna <- assemble_worker_dna env spec_name ;;
       save_dna env "worker" worker_dna (Some spec_name)).

(** [main]: with [--help] as its first argument the program prints its
    usage and returns; otherwise it runs the batch over the directory of
    the script.  What it prints is left out. *)
Definition main (env : Env) (argv : list string) : M unit :=
  if (1 <? List.length argv)%nat && (nth 1 argv "" =? "--help")
  then ret tt
  else assemble_all env.

(** ** Vocabulary of the properties *)

(** The names of the variables the role assemblers define. *)
Definition variable_names : list string :=
  [ "AGENT_TYPE"; "AGENT_ID"; "TIMESTAMP"; "SPECIALIZATION";
    "PRIME_DIRECTIVE"; "TOOL_ACCESS"; "SPECIALIZATION_DETAILS";
    "FOCUS_AREAS"; "KEY_PATTERNS" ]%list.

(** Every specialization file loads to a mapping. *)
Definition all_mappings (files : list (string * yaml_file)) : bool :=
  forallb
    (fun nf => match snd nf with
               | Parsed (YDict _) => true
               | _ => false
               end)
    files.

(** The specialization names the loop of [assemble_all] goes through:
    the stem of each file the listing gives. *)
Definition spec_names (env : Env) : list string :=
  map stem (glob_yaml env).

(** The file names the batch driver may choose. *)
Definition batch_filename (env : Env) (filename : string) : Prop :=
  filename = "queen.md" \/ filename = "architect.md"
  \/ exists name,
      (name = "general" \/ In name (spec_names env))
      /\ filename = dna_filename "worker" (Some name).

(** The files of [w] are those of [w0], in the same order, followed by
    files of the batch. *)
Definition grown_from (env : Env) (w0 w : World) : Prop :=
  exists log,
    written w = (written w0 ++ log)%list
    /\ Forall (batch_filename env) (map fst log).


(** A key is an identifier when neither brace occurs in it; the keys the
    assemblers use are of this kind. *)
Definition is_brace (c : ascii) : bool :=
  (c =? "{")%char || (c =? "}")%char.

Fixpoint brace_free (s : string) : bool :=
  match s with
  | "" => true
  | String c s' => negb (is_brace c) && brace_free s'
  end.

(** A text with no opening brace holds no placeholder. *)
Fixpoint no_open_brace (s : string) : bool :=
  match s with
  | "" => true
  | String c s' => negb (c =? "{")%char && no_open_brace s'
  end.

Definition identifier_keys (variables : dict) : bool :=
  forallb brace_free (keys variables).

(** The swarm directory with the file of the component [name] changed:
    taken away ([None]) or given another text. *)
Definition with_component (env : Env) (name : string)
  (file : option string) : Env :=
  {| components_dir := fun n => if n =? name then file else components_dir env n;
     specializations_dir := specializations_dir env;
     clock := clock env;
     writable := writable env |}.

Definition remove_component (env : Env) (name : string) : Env :=
  with_component env name None.

Definition empty_component (env : Env) (name : string) : Env :=
  with_component env name (Some "").

(** The same swarm directory with other specialization files. *)
Definition with_specializations (env : Env)
  (files : list (string * yaml_file)) : Env :=
  {| components_dir := components_dir env;
     specializations_dir := files;
     clock := clock env;
     writable := writable env |}.

(** The sections [_assemble_dna] collects for a list of components. *)
Definition sections_of (env : Env) (components : list string)
  (variables : dict) : list string :=
  collect_sections env components variables [].

(** The clock read once more. *)
Definition tick (w : World) : World :=
  {| ticks := S (ticks w); written := written w |}.

(** The world an outcome leaves behind. *)
Definition world_of {A : Type} (o : outcome A) : World :=
  match o with
  | Ok _ w => w
  | Raise _ w => w
  end.

(** A small swarm directory: two components and the specialization
    fragment, one specialization with a mapping, one whose file is empty
    and one whose file is not YAML; the clock stands still and every file
    can be written. *)
Definition example_env : Env :=
  {| components_dir := fun n =>
       if n =? "base-header" then Some "H"
       else if n =? "prime-directive" then Some "Do {{AGENT_TYPE}} work"
       else if n =? "worker-specializations"
            then Some "Focus: {{FOCUS_AREAS}}"
       else None;
     specializations_dir :=
       [ ("parser",
          Parsed (YDict [("description", VStr "parsing");
                         ("focus_areas", VStr "tokens")]));
         ("blank", Parsed YNotDict);
         ("broken", Malformed) ];
     clock := fun _ => "2024-01-01T00:00:00";
     writable := fun _ => true |}.

Definition start : World := {| ticks := 0; written := [] |}.


(** The example directory with a single specialization file,
    [general.yaml]. *)
Definition general_record_env : Env :=
  with_specializations example_env
    [("general", Parsed (YDict [("description", VStr "everything")]))].

(** The body of the loop of [assemble_all]. *)
Definition specialized_worker (env : Env) (spec_name : string) : M unit :=
  worker_dna <- assemble_worker_dna env spec_name ;;
  save_dna env "worker" worker_dna (Some spec_name).

(** The documents of the coordinator and of the designer. *)
Definition queen_document (env : Env) (timestamp : string) : string :=
  _assemble_dna env queen_components (queen_variables timestamp).

Definition architect_document (env : Env) (timestamp : string) : string :=
  _assemble_dna env architect_components (architect_variables timestamp).

(** The worker document with the default values of the variables. *)
Definition default_worker_document (env : Env)
  (specialization timestamp : string) : string :=
  _assemble_dna env (worker_components specialization)
    (worker_variables specialization timestamp
       (VStr "general implementation") (VStr "") (VStr "") (VStr "")).

(** The example directory with a component that holds nothing but a
    placeholder. *)
Definition placeholder_only_env : Env :=
  with_component example_env "note" (Some "{{KEY_PATTERNS}}").

(** Every file written so far ends with the protocol reference. *)
Definition closed_docs (w : World) : Prop :=
  Forall (fun fc => endswith (snd fc) protocol_reference = true) (written w).

(** A step keeps the invariant [I] of the world, whether it returns or
    raises, and what it returns satisfies [Q]. *)
Definition keeps {A : Type} (I : World -> Prop) (m : M A) (Q : A -> Prop)
  : Prop :=
  forall w, I w ->
    I (world_of (m w)) /\ forall a w', m w = Ok a w' -> Q a.

(** Sections laid out one after the other, a blank line after each, and
    the closing block last. *)
Fixpoint laid_out (sections : list string) (closing : string) : string :=
  match sections with
  | [] => closing
  | s :: rest => s ++ (nl ++ nl) ++ laid_out rest closing
  end.

(** Distinct names in a list given in full. *)
Ltac distinct_names :=
  repeat (constructor; [simpl; intuition discriminate|]); constructor.

(** ** Texts *)

Section Texts.

Lemma append_assoc (a b c : string) : (a ++ b) ++ c = a ++ b ++ c.
Proof.
  induction a as [|x a IH]; simpl; [reflexivity | now rewrite IH].
Qed.

Lemma append_empty_r (a : string) : a ++ "" = a.
Proof.
  induction a as [|x a IH]; simpl; [reflexivity | now rewrite IH].
Qed.

Lemma length_append (a b : string) :
  String.length (a ++ b) = String.length a + String.length b.
Proof.
  induction a as [|x a IH]; simpl; [reflexivity | now rewrite IH].
Qed.

Lemma prefix_iff (a b : string) :
  prefix a b = true <-> exists r, b = a ++ r.
Proof.
  revert b; induction a as [|x a IH]; intros b; simpl.
  - destruct b; split; eauto.
  - destruct b as [|y b].
    + split; [discriminate | intros [r Hr]; discriminate].
    + simpl. destruct (ascii_dec x y) as [->|Hxy].
      * rewrite IH. split; intros [r Hr]; exists r.
        -- now rewrite Hr.
        -- now injection Hr.
      * split; [discriminate | intros [r Hr]].
        injection Hr as Hy _. now elim Hxy.
Qed.

Lemma prefix_append (a r : string) : prefix a (a ++ r) = true.
Proof. apply prefix_iff. now exists r. Qed.

Lemma prefix_append_r (a b r : string) :
  prefix a b = true -> prefix a (b ++ r) = true.
Proof.
  rewrite !prefix_iff. intros [q ->]. exists (q ++ r).
  apply append_assoc.
Qed.

Lemma drop_append (a r : string) : drop (String.length a) (a ++ r) = r.
Proof. induction a as [|x a IH]; simpl; [now destruct r | exact IH]. Qed.

Lemma append_inv_head (a b c : string) : a ++ b = a ++ c -> b = c.
Proof.
  induction a as [|x a IH]; simpl; intros H; [exact H|].
  injection H as H. now apply IH.
Qed.

End Texts.

(** ** [str.replace] *)

Lemma replace_from_skip_zero (old new : string) (k : nat) (s : string) :
  replace_from old new k s = replace_from old new 0 (drop k s).
Proof.
  revert k; induction s as [|c s IH]; intros [|k]; simpl; try reflexivity.
  apply IH.
Qed.

Lemma replace_from_hit (c : ascii) (o new t : string) :
  replace_from (String c o) new 0 (String c o ++ t)
  = new ++ replace_from (String c o) new 0 t.
Proof.
  cbn [append replace_from].
  change (String c (o ++ t)) with (String c o ++ t).
  rewrite prefix_append. cbn [String.length].
  rewrite Nat.sub_succ, Nat.sub_0_r, replace_from_skip_zero, drop_append.
  reflexivity.
Qed.

Section Replace.

Variables old new : string.
Hypothesis old_nonempty : old <> "".

Lemma replace_unfold (s : string) :
  replace s old new = replace_from old new 0 s.
Proof. unfold replace. destruct old; [now elim old_nonempty | reflexivity]. Qed.

Lemma replace_empty : replace "" old new = "".
Proof. now rewrite replace_unfold. Qed.

(** Where [old] starts, it is replaced and the scan goes on behind it. *)
Lemma replace_hit (t : string) :
  replace (old ++ t) old new = new ++ replace t old new.
Proof.
  rewrite !replace_unfold.
  destruct old as [|c o]; [now elim old_nonempty|].
  apply replace_from_hit.
Qed.

(** Where [old] does not start, the character is kept. *)
Lemma replace_miss (c : ascii) (s : string) :
  prefix old (String c s) = false ->
  replace (String c s) old new = String c (replace s old new).
Proof.
  intros H. rewrite !replace_unfold. cbn [replace_from]. now rewrite H.
Qed.

(** The scan of [t ++ r] is the scan of [t] followed by the scan of [r]
    when no occurrence of [old] that starts in [t] runs into [r]. *)
Lemma replace_append (t r : string) :
  (forall a u, t = a ++ u -> u <> "" ->
               prefix old (u ++ r) = true -> prefix old u = true) ->
  replace (t ++ r) old new = replace t old new ++ replace r old new.
Proof.
  remember (String.length t) as n eqn:Hn.
  assert (Hle : String.length t <= n) by lia. clear Hn.
  revert t Hle. induction n as [|n IH]; intros t Hle Hin.
  - destruct t; [|simpl in Hle; lia]. now rewrite replace_empty.
  - destruct t as [|c t]; [now rewrite replace_empty|].
    destruct (prefix old (String c t ++ r)) eqn:Hp.
    + apply (Hin "" (String c t) eq_refl) in Hp; [|discriminate].
      apply prefix_iff in Hp. destruct Hp as [q Hq].
      rewrite Hq, append_assoc, !replace_hit, append_assoc. f_equal.
      apply IH.
      * destruct old as [|x o]; [now elim old_nonempty|].
        assert (H := f_equal String.length Hq).
        rewrite length_append in H. simpl in H, Hle. lia.
      * intros a u Hau. apply (Hin (old ++ a) u).
        now rewrite Hq, Hau, append_assoc.
    + assert (Hp' : prefix old (String c t) = false).
      { destruct (prefix old (String c t)) eqn:E; [|reflexivity].
        apply prefix_append_r with (r := r) in E. congruence. }
      cbn [append] in *. rewrite !replace_miss by assumption.
      cbn [append]. f_equal. apply IH; [simpl in Hle; lia|].
      intros a u Hau. apply (Hin (String c a) u). now rewrite Hau.
Qed.

(** A stretch [p] in which [old] starts nowhere, even with [r] behind
    it, is copied by the scan. *)
Lemma replace_copy (p r : string) :
  (forall a u, p = a ++ u -> u <> "" -> prefix old (u ++ r) = false) ->
  replace (p ++ r) old new = p ++ replace r old new.
Proof.
  induction p as [|c p IH]; intros Hin; [reflexivity|].
  cbn [append]. rewrite replace_miss.
  - f_equal. apply IH. intros a u Hau. apply (Hin (String c a) u).
    now rewrite Hau.
  - apply (Hin "" (String c p) eq_refl). discriminate.
Qed.

End Replace.

(** ** Placeholders of identifier keys *)

Lemma brace_free_cons (c : ascii) (k : string) :
  brace_free (String c k) = true ->
  c <> "{"%char /\ c <> "}"%char /\ brace_free k = true.
Proof.
  simpl. unfold is_brace. intros H.
  apply andb_true_iff in H. destruct H as [H Hk].
  apply negb_true_iff, orb_false_iff in H. destruct H as [H1 H2].
  apply Ascii.eqb_neq in H1, H2. auto.
Qed.

Lemma placeholder_nonempty (k : string) : placeholder k <> "".
Proof. discriminate. Qed.

Lemma placeholder_cons (k : string) :
  placeholder k = String "{" (String "{" (k ++ "}}")).
Proof. reflexivity. Qed.

(** The text of an identifier key followed by the closing braces has no
    opening brace. *)
Lemma key_close_no_open (k a u : string) :
  brace_free k = true -> k ++ "}}" <> a ++ String "{" u.
Proof.
  revert a; induction k as [|c k IH]; intros a Hk H.
  - destruct a as [|x [|y [|z a]]]; discriminate.
  - apply brace_free_cons in Hk. destruct Hk as (Hc & _ & Hk).
    destruct a as [|x a]; simpl in H; injection H as Hx H.
    + now elim Hc.
    + now apply (IH a).
Qed.

(** An identifier key with its closing braces that starts in [u] ends
    in [u] when an opening brace follows [u]. *)
Lemma key_close_within (k u r q : string) :
  brace_free k = true ->
  u ++ String "{" r = (k ++ "}}") ++ q ->
  exists q', u = (k ++ "}}") ++ q'.
Proof.
  revert u; induction k as [|c k IH]; intros u Hk H.
  - destruct u as [|x [|y u]]; simpl in H; try discriminate.
    injection H as -> -> H. now exists u.
  - apply brace_free_cons in Hk. destruct Hk as (Hc & _ & Hk).
    destruct u as [|x u]; simpl in H; injection H as Hx H.
    + now elim Hc.
    + destruct (IH u Hk H) as [q' ->]. exists q'. now rewrite Hx.
Qed.

(** Two identifier keys that agree up to their closing braces are equal. *)
Lemma key_close_inj (k k' q q' : string) :
  brace_free k = true -> brace_free k' = true ->
  (k ++ "}}") ++ q = (k' ++ "}}") ++ q' -> k = k'.
Proof.
  revert k'; induction k as [|c k IH]; intros [|c' k'] Hk Hk' H.
  - reflexivity.
  - apply brace_free_cons in Hk'. destruct Hk' as (_ & Hc & _).
    simpl in H. injection H as Hx _. now elim Hc.
  - apply brace_free_cons in Hk. destruct Hk as (_ & Hc & _).
    simpl in H. injection H as Hx _. now elim Hc.
  - apply brace_free_cons in Hk, Hk'.
    destruct Hk as (_ & _ & Hk), Hk' as (_ & _ & Hk').
    simpl in H. injection H as -> H. f_equal. now apply (IH k').
Qed.

Section Placeholders.

Variable k : string.
Hypothesis k_identifier : brace_free k = true.

(** An occurrence of the placeholder that starts before another
    placeholder ends before it. *)
Lemma placeholder_before (u k' r : string) :
  u <> "" ->
  prefix (placeholder k) (u ++ placeholder k' ++ r) = true ->
  prefix (placeholder k) u = true.
Proof.
  intros Hu. rewrite !prefix_iff. intros [q H].
  rewrite !placeholder_cons in *. cbn [append] in H.
  destruct u as [|x [|y u]]; [now elim Hu| |]; cbn [append] in H.
  - exfalso. injection H as Hx H.
    destruct k as [|c k0]; [discriminate|].
    apply brace_free_cons in k_identifier.
    injection H as Hc _. destruct k_identifier as (Hn & _). now elim Hn.
  - injection H as Hx Hy H.
    destruct (key_close_within _ _ _ _ k_identifier H) as [q' ->].
    exists q'. now rewrite Hx, Hy.
Qed.

(** No occurrence of the placeholder starts inside another placeholder
    of an identifier key. *)
Lemma placeholder_not_inside (k' a u r : string) :
  brace_free k' = true ->
  placeholder k' = a ++ u -> a <> "" -> u <> "" ->
  prefix (placeholder k) (u ++ r) = false.
Proof.
  intros Hk' Hau Ha Hu.
  destruct (prefix (placeholder k) (u ++ r)) eqn:E; [exfalso|reflexivity].
  apply prefix_iff in E. destruct E as [q E].
  destruct u as [|x u]; [now elim Hu|].
  rewrite !placeholder_cons in *. cbn [append] in E.
  injection E as -> E.
  destruct a as [|y [|z a]]; [now elim Ha| |]; cbn [append] in Hau.
  - injection Hau as _ Hau. subst u.
    destruct k' as [|c k0]; [discriminate|].
    apply brace_free_cons in Hk'. destruct Hk' as (Hc & _).
    injection E as E _. now elim Hc.
  - injection Hau as _ _ Hau.
    now apply (key_close_no_open k' a u Hk').
Qed.

(** The placeholder of another identifier key is not an occurrence. *)
Lemma placeholder_other (k' r : string) :
  brace_free k' = true -> k <> k' ->
  prefix (placeholder k) (placeholder k' ++ r) = false.
Proof.
  intros Hk' Hne.
  destruct (prefix (placeholder k) (placeholder k' ++ r)) eqn:E;
    [exfalso|reflexivity].
  apply prefix_iff in E. destruct E as [q E].
  rewrite !placeholder_cons in E. cbn [append] in E.
  injection E as E. apply Hne. symmetry in E.
  now apply (key_close_inj k k' q r).
Qed.

(** One pass over a text around an occurrence of its own placeholder. *)
Lemma replace_own_placeholder (t1 t2 new : string) :
  replace (t1 ++ placeholder k ++ t2) (placeholder k) new
  = replace t1 (placeholder k) new ++ new
    ++ replace t2 (placeholder k) new.
Proof.
  rewrite replace_append by
    (try apply placeholder_nonempty;
     intros a u _ Hu; now apply placeholder_before).
  now rewrite replace_hit by apply placeholder_nonempty.
Qed.

(** One pass over a text around the placeholder of another key. *)
Lemma replace_other_placeholder (k' t1 t2 new : string) :
  brace_free k' = true -> k <> k' ->
  replace (t1 ++ placeholder k' ++ t2) (placeholder k) new
  = replace t1 (placeholder k) new ++ placeholder k'
    ++ replace t2 (placeholder k) new.
Proof.
  intros Hk' Hne.
  rewrite replace_append by
    (try apply placeholder_nonempty;
     intros a u _ Hu; now apply placeholder_before).
  f_equal. apply replace_copy; [apply placeholder_nonempty|].
  intros a u Hau Hu. destruct a as [|x a].
  - cbn [append] in Hau. rewrite <- Hau. now apply placeholder_other.
  - apply (placeholder_not_inside k' (String x a) u); auto. discriminate.
Qed.

End Placeholders.

(** ** The variable substituter *)

Lemma substitute_variables_cons (t k : string) (v : value) (vars : dict) :
  substitute_variables t ((k, v) :: vars)
  = substitute_variables (replace t (placeholder k) (str v)) vars.
Proof. reflexivity. Qed.

Lemma substitute_variables_app (t : string) (vars1 vars2 : dict) :
  substitute_variables t (vars1 ++ vars2)%list
  = substitute_variables (substitute_variables t vars1) vars2.
Proof. apply fold_left_app. Qed.


Lemma identifier_keys_cons (k : string) (v : value) (vars : dict) :
  identifier_keys ((k, v) :: vars) = true ->
  brace_free k = true /\ identifier_keys vars = true.
Proof. unfold identifier_keys. simpl. apply andb_true_iff. Qed.

Lemma identifier_keys_app (vars1 vars2 : dict) :
  identifier_keys (vars1 ++ vars2)%list = true ->
  identifier_keys vars1 = true /\ identifier_keys vars2 = true.
Proof.
  unfold identifier_keys, keys. rewrite map_app, forallb_app.
  apply andb_true_iff.
Qed.

(** The placeholder of a key that the mapping does not hold goes through
    every pass untouched, and the text on either side of it is substituted
    on its own. *)
Lemma substitute_absent (c : string) (vars : dict) (t1 t2 : string) :
  identifier_keys vars = true -> brace_free c = true ->
  ~ In c (keys vars) ->
  substitute_variables (t1 ++ placeholder c ++ t2) vars
  = substitute_variables t1 vars ++ placeholder c
    ++ substitute_variables t2 vars.
Proof.
  revert t1 t2; induction vars as [|[k v] vars IH]; intros t1 t2 Hid Hc Hin.
  - reflexivity.
  - apply identifier_keys_cons in Hid. destruct Hid as [Hk Hid].
    rewrite !substitute_variables_cons, replace_other_placeholder; auto.
    + apply IH; auto. intros H. apply Hin. now right.
    + intros ->. apply Hin. now left.
Qed.

(** The placeholder of the key whose pass comes last is replaced by the
    value of the key, which no pass scans. *)
Lemma substitute_last (k : string) (v : value) (vars : dict)
  (t1 t2 : string) :
  identifier_keys (vars ++ [(k, v)])%list = true ->
  ~ In k (keys vars) ->
  substitute_variables (t1 ++ placeholder k ++ t2) (vars ++ [(k, v)])%list
  = substitute_variables t1 (vars ++ [(k, v)])%list ++ str v
    ++ substitute_variables t2 (vars ++ [(k, v)])%list.
Proof.
  revert t1 t2; induction vars as [|[k0 v0] vars IH]; intros t1 t2 Hid Hin.
  - apply identifier_keys_cons in Hid. destruct Hid as [Hk _].
    cbn [List.app]. rewrite !substitute_variables_cons. cbn.
    now apply replace_own_placeholder.
  - cbn [List.app] in *. apply identifier_keys_cons in Hid.
    destruct Hid as [Hk0 Hid].
    assert (Hk : brace_free k = true).
    { apply identifier_keys_app in Hid. destruct Hid as [_ Hid].
      now apply identifier_keys_cons in Hid. }
    rewrite !substitute_variables_cons, replace_other_placeholder; auto.
    + apply IH; auto. intros H. apply Hin. now right.
    + intros ->. apply Hin. now left.
Qed.

(** The placeholder of a key of the mapping is replaced by the value of
    the key when its pass comes; the passes of the later keys then go
    over the whole result. *)
Lemma substitute_present (k : string) (v : value) (vars1 vars2 : dict)
  (t1 t2 : string) :
  identifier_keys (vars1 ++ [(k, v)])%list = true ->
  ~ In k (keys vars1) ->
  substitute_variables (t1 ++ placeholder k ++ t2)
    (vars1 ++ (k, v) :: vars2)%list
  = substitute_variables
      (substitute_variables t1 (vars1 ++ [(k, v)])%list ++ str v
       ++ substitute_variables t2 (vars1 ++ [(k, v)])%list)
      vars2.
Proof.
  intros Hid Hin.
  change (vars1 ++ (k, v) :: vars2)%list
    with (vars1 ++ [(k, v)] ++ vars2)%list.
  rewrite List.app_assoc, substitute_variables_app.
  now rewrite substitute_last.
Qed.

(** *** Passes and values (C1) *)




(** *** Substitution correctness (C5) *)

(** C5 as stated fails.  With identifier keys, the occurrence of the
    placeholder of [A] is not replaced by the value of [A] in the output:
    the later pass for [B] goes over the value as well.  With a key that
    holds braces, the placeholder of the absent key [a] does not stay as
    it is. *)
Lemma placeholders_not_always_as_stated :
  (identifier_keys [("A", VStr "{{B}}"); ("B", VStr "x")] = true
   /\ substitute_variables ("" ++ placeholder "A" ++ "{{B}}")
        [("A", VStr "{{B}}"); ("B", VStr "x")]
      = "xx"
   /\ substitute_variables "" [("A", VStr "{{B}}"); ("B", VStr "x")]
      ++ str (VStr "{{B}}")
      ++ substitute_variables "{{B}}" [("A", VStr "{{B}}"); ("B", VStr "x")]
      = "{{B}}x")
  /\ (~ In "a" (keys [("a}}", VStr "x")])
      /\ substitute_variables ("" ++ placeholder "a" ++ "}}")
           [("a}}", VStr "x")]
         = "x"
      /\ substitute_variables "" [("a}}", VStr "x")]
         ++ placeholder "a"
         ++ substitute_variables "}}" [("a}}", VStr "x")]
         = "{{a}}}}").
Proof.
  repeat split; try reflexivity.
  simpl; intros [H|[]]; discriminate.
Qed.

(** C5, amended.  For every text and every mapping whose keys are
    identifiers: the placeholder of an identifier key that the mapping
    does not hold stays byte for byte, the text on either side of it being
    substituted on its own; and every occurrence of the placeholder of a
    key of the mapping is replaced, literally, by the text of its value
    when the pass of that key comes, the text on either side having gone
    through the passes up to that one, after which the passes of the later
    keys go over the result. *)
Theorem substitution_correctness (vars : dict) (t1 t2 : string) :
  identifier_keys vars = true ->
  (forall c : string,
      brace_free c = true -> ~ In c (keys vars) ->
      substitute_variables (t1 ++ placeholder c ++ t2) vars
      = substitute_variables t1 vars ++ placeholder c
        ++ substitute_variables t2 vars)
  /\ (forall (vars1 vars2 : dict) (k : string) (v : value),
        vars = (vars1 ++ (k, v) :: vars2)%list ->
        ~ In k (keys vars1) ->
        substitute_variables (t1 ++ placeholder k ++ t2) vars
        = substitute_variables
            (substitute_variables t1 (vars1 ++ [(k, v)])%list ++ str v
             ++ substitute_variables t2 (vars1 ++ [(k, v)])%list)
            vars2).
Proof.
  intros Hid. split.
  - intros c Hc Hin. now apply substitute_absent.
  - intros vars1 vars2 k v -> Hin. apply substitute_present; auto.
    change (vars1 ++ (k, v) :: vars2)%list
      with (vars1 ++ [(k, v)] ++ vars2)%list in Hid.
    rewrite List.app_assoc in Hid.
    now apply identifier_keys_app in Hid.
Qed.

Lemma substitution_correctness_witness :
  identifier_keys [("AGENT_TYPE", VStr "Queen"); ("AGENT_ID", VStr "zen-queen")]
  = true
  /\ substitute_variables ("I am " ++ placeholder "agent_type" ++ " {{AGENT_ID}}")
       [("AGENT_TYPE", VStr "Queen"); ("AGENT_ID", VStr "zen-queen")]
     = substitute_variables "I am "
         [("AGENT_TYPE", VStr "Queen"); ("AGENT_ID", VStr "zen-queen")]
       ++ placeholder "agent_type"
       ++ substitute_variables " {{AGENT_ID}}"
            [("AGENT_TYPE", VStr "Queen"); ("AGENT_ID", VStr "zen-queen")].
Proof.
  split; [reflexivity|].
  apply (substitution_correctness
           [("AGENT_TYPE", VStr "Queen"); ("AGENT_ID", VStr "zen-queen")]%list
           "I am " " {{AGENT_ID}}").
  - reflexivity.
  - reflexivity.
  - simpl; intros [H|[H|[]]]; discriminate.
Defined.

(** ** The document composer *)

Lemma collect_sections_acc (env : Env) (comps : list string) (vars : dict)
  (acc : list string) :
  collect_sections env comps vars acc
  = (acc ++ sections_of env comps vars)%list.
Proof.
  unfold sections_of. revert acc.
  induction comps as [|c comps IH]; intros acc; simpl.
  - now rewrite app_nil_r.
  - destruct (truthy (load_component env c)).
    + rewrite IH, (IH [_]%list), <- List.app_assoc. reflexivity.
    + apply IH.
Qed.

Lemma sections_of_cons (env : Env) (c : string) (comps : list string)
  (vars : dict) :
  sections_of env (c :: comps) vars
  = ((if truthy (load_component env c)
      then [substitute_variables (load_component env c) vars]
      else []) ++ sections_of env comps vars)%list.
Proof.
  unfold sections_of at 1. simpl.
  destruct (truthy (load_component env c)); [|reflexivity].
  apply collect_sections_acc.
Qed.

Lemma sections_of_app (env : Env) (comps1 comps2 : list string)
  (vars : dict) :
  sections_of env (comps1 ++ comps2) vars
  = (sections_of env comps1 vars ++ sections_of env comps2 vars)%list.
Proof.
  induction comps1 as [|c comps1 IH]; [reflexivity|].
  cbn [List.app]. now rewrite !sections_of_cons, IH, List.app_assoc.
Qed.

(** The sections are the substituted texts of the components that load
    to a non-empty text, in the order of the list. *)
Lemma sections_of_filter (env : Env) (comps : list string) (vars : dict) :
  sections_of env comps vars
  = map (fun c => substitute_variables (load_component env c) vars)
      (filter (fun c => truthy (load_component env c)) comps).
Proof.
  induction comps as [|c comps IH]; [reflexivity|].
  rewrite sections_of_cons. simpl.
  destruct (truthy (load_component env c)); simpl; now rewrite IH.
Qed.

Lemma join_closing (sep closing : string) (sections : list string) :
  join sep (sections ++ [closing])
  = fold_right (fun s rest => s ++ sep ++ rest) closing sections.
Proof.
  unfold join. induction sections as [|s sections IH]; [reflexivity|].
  cbn [List.app fold_right String.concat].
  destruct (sections ++ [closing])%list eqn:E.
  - now destruct sections.
  - now rewrite IH.
Qed.

Lemma laid_out_fold (sections : list string) (closing : string) :
  laid_out sections closing
  = fold_right (fun s rest => s ++ (nl ++ nl) ++ rest) closing sections.
Proof. induction sections as [|s l IH]; simpl; [|rewrite IH]; reflexivity. Qed.

Lemma _assemble_dna_laid_out (env : Env) (comps : list string) (vars : dict) :
  _assemble_dna env comps vars
  = laid_out (sections_of env comps vars) protocol_reference.
Proof.
  unfold _assemble_dna. fold (sections_of env comps vars).
  now rewrite join_closing, laid_out_fold.
Qed.


Lemma laid_out_ends (sections : list string) (closing : string) :
  exists before, laid_out sections closing = before ++ closing.
Proof.
  induction sections as [|s l [before IH]].
  - now exists "".
  - exists (s ++ (nl ++ nl) ++ before). simpl.
    now rewrite IH, !append_assoc.
Qed.

Lemma endswith_append (before s : string) : endswith (before ++ s) s = true.
Proof.
  unfold endswith. rewrite length_append. apply andb_true_iff. split.
  - apply Nat.leb_le. lia.
  - replace (String.length before + String.length s - String.length s)
      with (String.length before) by lia.
    rewrite drop_append. apply String.eqb_refl.
Qed.


(** A text with no opening brace goes through every pass as it is. *)
Lemma replace_no_open_brace (s k new : string) :
  no_open_brace s = true -> replace s (placeholder k) new = s.
Proof.
  induction s as [|c s IH]; intros H.
  - apply replace_empty, placeholder_nonempty.
  - simpl in H. apply andb_true_iff in H. destruct H as [Hc Hs].
    rewrite replace_miss; [now rewrite IH|apply placeholder_nonempty|].
    destruct (prefix (placeholder k) (String c s)) eqn:E; [|reflexivity].
    apply prefix_iff in E. destruct E as [r E].
    rewrite placeholder_cons in E. injection E as -> _. discriminate Hc.
Qed.

Lemma substitute_no_open_brace (s : string) (vars : dict) :
  no_open_brace s = true -> substitute_variables s vars = s.
Proof.
  intros H. induction vars as [|[k v] vars IH]; [reflexivity|].
  now rewrite substitute_variables_cons, replace_no_open_brace.
Qed.

(** *** Separator and closing block (C2) *)

(** C2.  The document is the substituted non-empty fragments in order, two
    line breaks (one blank line) after each, then the closing block, which
    the same two line breaks part from the last fragment.  (The closing
    block is the text [protocol_reference], whose own first character is a
    line break.)  In the example the document starts with ["H"], a blank
    line, ["Do Coordinator work"], a blank line, and goes on to the
    closing block. *)
Theorem sections_joined_by_one_blank_line (env : Env) :
  (forall (components : list string) (variables : dict),
      _assemble_dna env components variables
      = laid_out
          (map (fun c => substitute_variables (load_component env c) variables)
             (filter (fun c => truthy (load_component env c)) components))
          protocol_reference)
  /\ (forall rest : dict,
        components_dir env "base-header" = Some "H" ->
        components_dir env "prime-directive" = Some "Do {{AGENT_TYPE}} work" ->
        exists others : list string,
          _assemble_dna env queen_components
            (("AGENT_TYPE", VStr "Coordinator") :: rest)
          = "H" ++ (nl ++ nl) ++ "Do Coordinator work" ++ (nl ++ nl)
            ++ laid_out others protocol_reference).
Proof.
  split.
  - intros comps vars.
    now rewrite _assemble_dna_laid_out, sections_of_filter.
  - intros rest HH HP.
    exists (sections_of env
              ["sub-agent-context"; "project-context"; "queen-capabilities";
               "workflow-start"; "queen-output"]%list
              (("AGENT_TYPE", VStr "Coordinator") :: rest)).
    rewrite _assemble_dna_laid_out. unfold queen_components.
    rewrite !(sections_of_cons env "base-header"),
      !(sections_of_cons env "prime-directive").
    unfold load_component. rewrite HH, HP.
    cbn [truthy String.eqb negb List.app laid_out Ascii.eqb].
    rewrite substitute_no_open_brace by reflexivity.
    rewrite substitute_variables_cons.
    change (replace "Do {{AGENT_TYPE}} work" (placeholder "AGENT_TYPE")
              (str (VStr "Coordinator")))
      with "Do Coordinator work".
    rewrite substitute_no_open_brace by reflexivity.
    reflexivity.
Qed.

Lemma sections_joined_by_one_blank_line_witness :
  let env :=
    {| components_dir := fun n =>
         if n =? "base-header" then Some "H"
         else if n =? "prime-directive" then Some "Do {{AGENT_TYPE}} work"
         else None;
       specializations_dir := [];
       clock := fun _ => "2024-01-01T00:00:00";
       writable := fun _ => true |} in
  components_dir env "base-header" = Some "H"
  /\ components_dir env "prime-directive" = Some "Do {{AGENT_TYPE}} work"
  /\ exists others : list string,
       _assemble_dna env queen_components
         (("AGENT_TYPE", VStr "Coordinator") :: [])
       = "H" ++ (nl ++ nl) ++ "Do Coordinator work" ++ (nl ++ nl)
         ++ laid_out others protocol_reference.
Proof.
  intros env. split; [reflexivity|]. split; [reflexivity|].
  apply (proj2 (sections_joined_by_one_blank_line env) []%list);
    reflexivity.
Defined.

(** ** The role assemblers *)

Lemma assemble_queen_dna_returns (env : Env) (w : World) :
  assemble_queen_dna env w
  = Ok (_assemble_dna env queen_components
          (queen_variables (clock env (ticks w))))
       (tick w).
Proof. reflexivity. Qed.

Lemma assemble_architect_dna_returns (env : Env) (w : World) :
  assemble_architect_dna env w
  = Ok (_assemble_dna env architect_components
          (architect_variables (clock env (ticks w))))
       (tick w).
Proof. reflexivity. Qed.

(** What [assemble_worker_dna] takes for [spec_data]. *)
Lemma worker_spec_data_cases (env : Env) (specialization : string)
  (w : World) :
  (if negb (specialization =? "general")
   then load_specialization env specialization
   else ret (YDict [])) w = Raise YAMLError w
  \/ exists doc,
      (if negb (specialization =? "general")
       then load_specialization env specialization
       else ret (YDict [])) w = Ok doc w.
Proof.
  destruct (negb (specialization =? "general")).
  - unfold load_specialization.
    destruct (lookup_file (specializations_dir env) specialization)
      as [[|doc]|]; unfold ret, raise; eauto.
  - right. now exists (YDict []).
Qed.

(** With a mapping for [spec_data] the worker assembler returns. *)
Lemma assemble_worker_dna_dict (env : Env) (specialization : string)
  (d : dict) (w : World) :
  (if negb (specialization =? "general")
   then load_specialization env specialization
   else ret (YDict [])) w = Ok (YDict d) w ->
  assemble_worker_dna env specialization w
  = Ok (_assemble_dna env (worker_components specialization)
          (worker_variables specialization (clock env (ticks w))
             (dict_get d "description" (VStr "general implementation"))
             (dict_get d "details" (VStr ""))
             (dict_get d "focus_areas" (VStr ""))
             (dict_get d "key_patterns" (VStr ""))))
       (tick w).
Proof.
  intros H. unfold assemble_worker_dna, bind. rewrite H. reflexivity.
Qed.

(** With any other document the first [get] raises, once the clock has
    been read. *)
Lemma assemble_worker_dna_not_dict (env : Env) (specialization : string)
  (w : World) :
  (if negb (specialization =? "general")
   then load_specialization env specialization
   else ret (YDict [])) w = Ok YNotDict w ->
  assemble_worker_dna env specialization w = Raise AttributeError (tick w).
Proof.
  intros H. unfold assemble_worker_dna, bind. rewrite H. reflexivity.
Qed.

Lemma assemble_worker_dna_malformed (env : Env) (specialization : string)
  (w : World) :
  (if negb (specialization =? "general")
   then load_specialization env specialization
   else ret (YDict [])) w = Raise YAMLError w ->
  assemble_worker_dna env specialization w = Raise YAMLError w.
Proof.
  intros H. unfold assemble_worker_dna, bind. rewrite H. reflexivity.
Qed.

(** Every outcome of the worker assembler: a document put together by
    [_assemble_dna] over the worker's components, or an exception; the
    files written are left as they were. *)
Lemma assemble_worker_dna_cases (env : Env) (specialization : string)
  (w : World) :
  (exists vars,
      assemble_worker_dna env specialization w
      = Ok (_assemble_dna env (worker_components specialization) vars)
           (tick w))
  \/ assemble_worker_dna env specialization w = Raise AttributeError (tick w)
  \/ assemble_worker_dna env specialization w = Raise YAMLError w.
Proof.
  destruct (worker_spec_data_cases env specialization w) as [H|[[d|] H]].
  - right; right. apply assemble_worker_dna_malformed. exact H.
  - left. eexists. apply assemble_worker_dna_dict. exact H.
  - right; left. apply assemble_worker_dna_not_dict. exact H.
Qed.

(** ** Steps that keep an invariant *)

Section Keeps.

Variable I : World -> Prop.

Lemma keeps_ret {A : Type} (a : A) (Q : A -> Prop) :
  Q a -> keeps I (ret a) Q.
Proof.
  intros Ha w Hw. split; [exact Hw|].
  intros a' w' H. now injection H as <- _.
Qed.

Lemma keeps_bind {A B : Type} (m : M A) (f : A -> M B)
  (Q : A -> Prop) (R : B -> Prop) :
  keeps I m Q -> (forall a, Q a -> keeps I (f a) R) ->
  keeps I (bind m f) R.
Proof.
  intros Hm Hf w Hw. unfold bind.
  destruct (Hm w Hw) as [Hw' Hq].
  destruct (m w) as [a w1|e w1]; simpl in Hw'.
  - apply (Hf a); auto. now apply (Hq a w1).
  - split; [exact Hw'|discriminate].
Qed.

Lemma keeps_weaken {A : Type} (m : M A) (Q Q' : A -> Prop) :
  keeps I m Q -> (forall a, Q a -> Q' a) -> keeps I m Q'.
Proof.
  intros Hm HQ w Hw. destruct (Hm w Hw) as [Hw' Hq].
  split; [exact Hw'|]. intros a w' H. apply HQ. now apply (Hq a w').
Qed.

Lemma keeps_for_each {A : Type} (xs : list A) (body : A -> M unit) :
  (forall x, keeps I (body x) (fun _ => True)) ->
  keeps I (for_each xs body) (fun _ => True).
Proof.
  intros Hbody. induction xs as [|x xs IH]; simpl.
  - now apply keeps_ret.
  - apply keeps_bind with (Q := fun _ => True); auto.
Qed.

End Keeps.

(** The assemblers leave the written files alone and, when they return,
    return a document that ends with the protocol reference. *)
Lemma _assemble_dna_closing (env : Env) (comps : list string) (vars : dict) :
  endswith (_assemble_dna env comps vars) protocol_reference = true.
Proof.
  rewrite _assemble_dna_laid_out.
  destruct (laid_out_ends (sections_of env comps vars) protocol_reference)
    as [before ->].
  apply endswith_append.
Qed.

Lemma keeps_closed_assemble_queen (env : Env) :
  keeps closed_docs (assemble_queen_dna env)
    (fun doc => endswith doc protocol_reference = true).
Proof.
  intros w Hw. rewrite assemble_queen_dna_returns. split; [exact Hw|].
  intros a w' H. injection H as <- _. apply _assemble_dna_closing.
Qed.

Lemma keeps_closed_assemble_architect (env : Env) :
  keeps closed_docs (assemble_architect_dna env)
    (fun doc => endswith doc protocol_reference = true).
Proof.
  intros w Hw. rewrite assemble_architect_dna_returns. split; [exact Hw|].
  intros a w' H. injection H as <- _. apply _assemble_dna_closing.
Qed.

Lemma keeps_closed_assemble_worker (env : Env) (specialization : string) :
  keeps closed_docs (assemble_worker_dna env specialization)
    (fun doc => endswith doc protocol_reference = true).
Proof.
  intros w Hw.
  destruct (assemble_worker_dna_cases env specialization w)
    as [[vars H]|[H|H]]; rewrite H; (split; [exact Hw|]);
    intros a w' E; try discriminate.
  injection E as <- _. apply _assemble_dna_closing.
Qed.

Lemma keeps_closed_save_dna (env : Env) (role content : string)
  (specialization : option string) :
  endswith content protocol_reference = true ->
  keeps closed_docs (save_dna env role content specialization)
    (fun _ => True).
Proof.
  intros Hc w Hw. unfold save_dna.
  destruct (writable env (dna_filename role specialization)); simpl.
  - split; [|trivial]. unfold closed_docs in *. simpl.
    apply Forall_app. split; [exact Hw|]. now repeat constructor.
  - split; [exact Hw|discriminate].
Qed.

Lemma keeps_closed_assemble_all (env : Env) :
  keeps closed_docs (assemble_all env) (fun _ => True).
Proof.
  unfold assemble_all.
  eapply keeps_bind; [apply keeps_closed_assemble_queen|]. intros d1 H1.
  eapply keeps_bind; [now apply keeps_closed_save_dna|]. intros _ _.
  eapply keeps_bind; [apply keeps_closed_assemble_architect|]. intros d2 H2.
  eapply keeps_bind; [now apply keeps_closed_save_dna|]. intros _ _.
  eapply keeps_bind; [apply keeps_closed_assemble_worker|]. intros d3 H3.
  eapply keeps_bind; [now apply keeps_closed_save_dna|]. intros _ _.
  apply keeps_for_each. intros x.
  eapply keeps_bind; [apply keeps_closed_assemble_worker|]. intros d H.
  now apply keeps_closed_save_dna.
Qed.

(** *** Closing section (C7) *)

(** C7.  Whatever the components, the variables and the store, the text
    [_assemble_dna] returns ends with the protocol reference; so does the
    document of each role assembler whenever it returns one, and so does
    every file the batch driver writes, whether it completes or raises. *)
Theorem closing_section_invariant (env : Env) :
  (forall components variables,
      endswith (_assemble_dna env components variables) protocol_reference
      = true)
  /\ (forall w, exists doc w',
         assemble_queen_dna env w = Ok doc w'
         /\ endswith doc protocol_reference = true)
  /\ (forall w, exists doc w',
         assemble_architect_dna env w = Ok doc w'
         /\ endswith doc protocol_reference = true)
  /\ (forall specialization w doc w',
         assemble_worker_dna env specialization w = Ok doc w' ->
         endswith doc protocol_reference = true)
  /\ (forall w, closed_docs w -> closed_docs (world_of (assemble_all env w))).
Proof.
  split; [apply _assemble_dna_closing|].
  split.
  { intros w. rewrite assemble_queen_dna_returns.
    eexists _, _. split; [reflexivity|apply _assemble_dna_closing]. }
  split.
  { intros w. rewrite assemble_architect_dna_returns.
    eexists _, _. split; [reflexivity|apply _assemble_dna_closing]. }
  split.
  { intros specialization w doc w' H.
    destruct (assemble_worker_dna_cases env specialization w)
      as [[vars E]|[E|E]]; rewrite E in H; try discriminate.
    injection H as <- _. apply _assemble_dna_closing. }
  intros w Hw. now apply keeps_closed_assemble_all.
Qed.

Lemma closing_section_invariant_witness :
  assemble_worker_dna example_env "parser" start
  = Ok (_assemble_dna example_env (worker_components "parser")
          (worker_variables "parser" "2024-01-01T00:00:00"
             (VStr "parsing") (VStr "") (VStr "tokens") (VStr "")))
       (tick start)
  /\ endswith
       (_assemble_dna example_env (worker_components "parser")
          (worker_variables "parser" "2024-01-01T00:00:00"
             (VStr "parsing") (VStr "") (VStr "tokens") (VStr "")))
       protocol_reference = true.
Proof.
  split; [reflexivity|].
  apply (proj1 (proj2 (proj2 (proj2
           (closing_section_invariant example_env))))
           "parser" start _ (tick start)).
  reflexivity.
Defined.

(** ** A component taken away or emptied *)

Lemma load_component_with_component (env : Env) (name : string)
  (file : option string) (c : string) :
  load_component (with_component env name file) c
  = if c =? name
    then match file with Some text => text | None => "" end
    else load_component env c.
Proof.
  unfold load_component, with_component. simpl.
  now destruct (c =? name).
Qed.

Lemma sections_of_with_other (env : Env) (name : string)
  (file : option string) (comps : list string) (vars : dict) :
  ~ In name comps ->
  sections_of (with_component env name file) comps vars
  = sections_of env comps vars.
Proof.
  induction comps as [|c comps IH]; intros Hin; [reflexivity|].
  rewrite !sections_of_cons, load_component_with_component.
  destruct (String.eqb_spec c name) as [->|Hne].
  - elim Hin. now left.
  - rewrite IH; [reflexivity|]. intros H. apply Hin. now right.
Qed.

Lemma sections_of_with_gone (env : Env) (name : string)
  (file : option string) (vars : dict) :
  file = None \/ file = Some "" ->
  sections_of (with_component env name file) [name] vars = []%list.
Proof.
  intros Hfile. rewrite sections_of_cons, load_component_with_component.
  rewrite String.eqb_refl. now destruct Hfile as [-> | ->].
Qed.

Lemma split_at_only_occurrence (name : string) (comps : list string) :
  NoDup comps -> In name comps ->
  exists before after,
    comps = (before ++ name :: after)%list
    /\ ~ In name before /\ ~ In name after.
Proof.
  intros Hnd Hin. destruct (in_split _ _ Hin) as (before & after & ->).
  exists before, after. split; [reflexivity|].
  apply NoDup_remove_2 in Hnd. rewrite in_app_iff in Hnd. tauto.
Qed.

Lemma role_components_NoDup :
  NoDup queen_components /\ NoDup architect_components
  /\ forall specialization, NoDup (worker_components specialization).
Proof.
  split; [|split]; [distinct_names..|].
  intros specialization. unfold worker_components.
  destruct (negb (specialization =? "general")); distinct_names.
Qed.

(** The worker assembler fares the same whatever the components: its
    variables come from the specialization and the clock. *)
Lemma assemble_worker_dna_with_component (env : Env) (name : string)
  (file : option string) (specialization : string) (w : World) :
  (exists vars,
      assemble_worker_dna env specialization w
      = Ok (_assemble_dna env (worker_components specialization) vars)
           (tick w)
      /\ assemble_worker_dna (with_component env name file) specialization w
         = Ok (_assemble_dna (with_component env name file)
                 (worker_components specialization) vars)
              (tick w))
  \/ (exists e w',
         assemble_worker_dna env specialization w = Raise e w'
         /\ assemble_worker_dna (with_component env name file)
              specialization w = Raise e w').
Proof.
  destruct (worker_spec_data_cases env specialization w) as [H|[[d|] H]].
  - right. exists YAMLError, w. split.
    + exact (assemble_worker_dna_malformed env specialization w H).
    + exact (assemble_worker_dna_malformed (with_component env name file)
               specialization w H).
  - left. eexists. split.
    + exact (assemble_worker_dna_dict env specialization d w H).
    + exact (assemble_worker_dna_dict (with_component env name file)
               specialization d w H).
  - right. exists AttributeError, (tick w). split.
    + exact (assemble_worker_dna_not_dict env specialization w H).
    + exact (assemble_worker_dna_not_dict (with_component env name file)
               specialization w H).
Qed.

(** *** Omission tolerance (C9) *)

(** C9.  Take a component away from the store, or empty its file.  In a
    component list that names it once, the document before is the laid
    out sections of the components ahead of it, its own section if it had
    one, and the sections of the components behind it, up to the closing
    block; the document after is the same without its own section: the
    other sections keep their text and their order, and the closing block
    is the same.  A list that does not name it gives the same document.
    The three role assemblers name no component twice and assemble both
    documents from the same components and variables. *)
Theorem omission_tolerance (env : Env) (name : string)
  (file : option string) :
  file = None \/ file = Some "" ->
  (forall (components : list string) (variables : dict),
      NoDup components ->
      (In name components ->
       exists before after,
         components = (before ++ name :: after)%list
         /\ _assemble_dna env components variables
            = laid_out
                (sections_of env before variables
                 ++ sections_of env [name] variables
                 ++ sections_of env after variables)%list
                protocol_reference
         /\ _assemble_dna (with_component env name file) components variables
            = laid_out
                (sections_of env before variables
                 ++ sections_of env after variables)%list
                protocol_reference)
      /\ (~ In name components ->
          _assemble_dna (with_component env name file) components variables
          = _assemble_dna env components variables))
  /\ (forall w,
         assemble_queen_dna env w
         = Ok (_assemble_dna env queen_components
                 (queen_variables (clock env (ticks w)))) (tick w)
         /\ assemble_queen_dna (with_component env name file) w
            = Ok (_assemble_dna (with_component env name file)
                    queen_components
                    (queen_variables (clock env (ticks w)))) (tick w)
         /\ NoDup queen_components)
  /\ (forall w,
         assemble_architect_dna env w
         = Ok (_assemble_dna env architect_components
                 (architect_variables (clock env (ticks w)))) (tick w)
         /\ assemble_architect_dna (with_component env name file) w
            = Ok (_assemble_dna (with_component env name file)
                    architect_components
                    (architect_variables (clock env (ticks w)))) (tick w)
         /\ NoDup architect_components)
  /\ (forall specialization w doc w',
         assemble_worker_dna env specialization w = Ok doc w' ->
         NoDup (worker_components specialization)
         /\ exists variables,
             doc = _assemble_dna env (worker_components specialization)
                     variables
             /\ assemble_worker_dna (with_component env name file)
                  specialization w
                = Ok (_assemble_dna (with_component env name file)
                        (worker_components specialization) variables) w').
Proof.
  intros Hfile. split; [|split; [|split]].
  - intros comps vars Hnd. split.
    + intros Hin.
      destruct (split_at_only_occurrence name comps Hnd Hin)
        as (before & after & -> & Hb & Ha).
      exists before, after. split; [reflexivity|].
      rewrite !_assemble_dna_laid_out.
      change (before ++ name :: after)%list
        with (before ++ [name] ++ after)%list.
      rewrite !sections_of_app.
      rewrite (sections_of_with_other env name file before) by assumption.
      rewrite (sections_of_with_other env name file after) by assumption.
      now rewrite sections_of_with_gone.
    + intros Hin. rewrite !_assemble_dna_laid_out.
      now rewrite sections_of_with_other.
  - intros w. repeat split; try reflexivity.
    apply role_components_NoDup.
  - intros w. repeat split; try reflexivity.
    apply role_components_NoDup.
  - intros specialization w doc w' H. split; [apply role_components_NoDup|].
    destruct (assemble_worker_dna_with_component env name file
                specialization w) as [(vars & E & E')|(e & w1 & E & _)];
      rewrite E in H; [|discriminate].
    injection H as <- <-. now exists vars.
Qed.

Lemma omission_tolerance_witness :
  (@None string = None \/ None = Some "")
  /\ NoDup queen_components
  /\ In "prime-directive" queen_components
  /\ exists before after,
      queen_components = (before ++ "prime-directive" :: after)%list
      /\ _assemble_dna example_env queen_components (queen_variables "now")
         = laid_out
             (sections_of example_env before (queen_variables "now")
              ++ sections_of example_env ["prime-directive"]
                   (queen_variables "now")
              ++ sections_of example_env after (queen_variables "now"))%list
             protocol_reference
      /\ _assemble_dna (with_component example_env "prime-directive" None)
           queen_components (queen_variables "now")
         = laid_out
             (sections_of example_env before (queen_variables "now")
              ++ sections_of example_env after (queen_variables "now"))%list
             protocol_reference.
Proof.
  split; [now left|].
  split; [apply role_components_NoDup|].
  split; [simpl; tauto|].
  apply (proj1 (omission_tolerance example_env "prime-directive" None
                  (or_introl eq_refl))
           queen_components (queen_variables "now")).
  - apply role_components_NoDup.
  - simpl; tauto.
Defined.

(** ** The worker and its specialization *)


Lemma load_specialization_dict (env : Env) (name : string) (w : World)
  (d : dict) :
  lookup_file (specializations_dir env) name = Some (Parsed (YDict d)) ->
  load_specialization env name w = Ok (YDict d) w.
Proof. unfold load_specialization. now intros ->. Qed.

Lemma load_specialization_absent (env : Env) (name : string) (w : World) :
  lookup_file (specializations_dir env) name = None ->
  load_specialization env name w = Ok (YDict []) w.
Proof. unfold load_specialization. now intros ->. Qed.

Lemma not_general (specialization : string) :
  specialization <> "general" ->
  negb (specialization =? "general") = true.
Proof. intros H. now apply negb_true_iff, String.eqb_neq. Qed.

(** *** Specialization insertion (C3) *)



(** *** Failing specialization files (C6) *)

(** C6 holds for the coordinator and designer assemblers and for a worker
    whose specialization file is absent or holds a mapping, complete or
    not; it fails for a specialization file that is present and holds no
    mapping, such as an empty file: [spec_data] is then not a [dict] and
    the first [get] raises [AttributeError], after the clock was read.  A
    file that is not YAML makes the load itself raise. *)
Theorem assembly_raises_on_empty_specialization (env : Env) :
  (forall w, exists doc, assemble_queen_dna env w = Ok doc (tick w))
  /\ (forall w, exists doc, assemble_architect_dna env w = Ok doc (tick w))
  /\ (forall w, exists doc, assemble_worker_dna env "general" w = Ok doc (tick w))
  /\ (forall specialization w,
         lookup_file (specializations_dir env) specialization = None ->
         exists doc, assemble_worker_dna env specialization w = Ok doc (tick w))
  /\ (forall specialization d w,
         lookup_file (specializations_dir env) specialization
         = Some (Parsed (YDict d)) ->
         exists doc, assemble_worker_dna env specialization w = Ok doc (tick w))
  /\ (forall specialization w,
         specialization <> "general" ->
         lookup_file (specializations_dir env) specialization
         = Some (Parsed YNotDict) ->
         assemble_worker_dna env specialization w
         = Raise AttributeError (tick w))
  /\ (forall specialization w,
         specialization <> "general" ->
         lookup_file (specializations_dir env) specialization
         = Some Malformed ->
         assemble_worker_dna env specialization w = Raise YAMLError w).
Proof.
  split; [|split; [|split; [|split; [|split; [|split]]]]].
  - intros w. eexists. apply assemble_queen_dna_returns.
  - intros w. eexists. apply assemble_architect_dna_returns.
  - intros w. eexists.
    exact (assemble_worker_dna_dict env "general" []%list w eq_refl).
  - intros specialization w H. eexists.
    apply (assemble_worker_dna_dict env specialization []%list).
    destruct (negb (specialization =? "general")); [|reflexivity].
    now apply load_specialization_absent.
  - intros specialization d w H.
    destruct (negb (specialization =? "general")) eqn:E.
    + eexists. apply (assemble_worker_dna_dict env specialization d).
      rewrite E. now apply load_specialization_dict.
    + eexists. apply (assemble_worker_dna_dict env specialization []%list).
      now rewrite E.
  - intros specialization w Hne H. apply assemble_worker_dna_not_dict.
    rewrite (not_general _ Hne). unfold load_specialization.
    now rewrite H.
  - intros specialization w Hne H. apply assemble_worker_dna_malformed.
    rewrite (not_general _ Hne). unfold load_specialization.
    now rewrite H.
Qed.

Lemma assembly_raises_on_empty_specialization_witness :
  "blank" <> "general"
  /\ lookup_file (specializations_dir example_env) "blank"
     = Some (Parsed YNotDict)
  /\ assemble_worker_dna example_env "blank" start
     = Raise AttributeError (tick start).
Proof.
  split; [discriminate|]. split; [reflexivity|].
  apply (proj1 (proj2 (proj2 (proj2 (proj2 (proj2
           (assembly_raises_on_empty_specialization example_env))))))
           "blank" start).
  - discriminate.
  - reflexivity.
Defined.

(** *** Default fallback (C8) *)

(** C8.  For a specialization that the store does not hold, the worker
    assembler returns the document put together with the description
    ["general implementation"] in the prime directive and the empty text
    for [SPECIALIZATION_DETAILS], [FOCUS_AREAS] and [KEY_PATTERNS]. *)
Theorem default_fallback (env : Env) (specialization : string) (w : World) :
  lookup_file (specializations_dir env) specialization = None ->
  assemble_worker_dna env specialization w
  = Ok (_assemble_dna env (worker_components specialization)
          (worker_variables specialization (clock env (ticks w))
             (VStr "general implementation") (VStr "") (VStr "") (VStr "")))
       (tick w)
  /\ forall timestamp other,
      let variables :=
        worker_variables specialization timestamp
          (VStr "general implementation") (VStr "") (VStr "") (VStr "") in
      dict_get variables "PRIME_DIRECTIVE" other
      = VStr "Transform architectural designs into working code that strictly adheres to MANIFEST.json specifications. You are specialized in general implementation. You implement with precision but do NOT make architectural decisions."
      /\ dict_get variables "SPECIALIZATION_DETAILS" other = VStr ""
      /\ dict_get variables "FOCUS_AREAS" other = VStr ""
      /\ dict_get variables "KEY_PATTERNS" other = VStr "".
Proof.
  intros H. split.
  - apply (assemble_worker_dna_dict env specialization []%list).
    destruct (negb (specialization =? "general")); [|reflexivity].
    now apply load_specialization_absent.
  - intros timestamp other. repeat split; reflexivity.
Qed.

Lemma default_fallback_witness :
  lookup_file (specializations_dir example_env) "lexer" = None
  /\ assemble_worker_dna example_env "lexer" start
     = Ok (_assemble_dna example_env (worker_components "lexer")
             (worker_variables "lexer" (clock example_env (ticks start))
                (VStr "general implementation")
                (VStr "") (VStr "") (VStr "")))
          (tick start).
Proof.
  split; [reflexivity|].
  apply (proj1 (default_fallback example_env "lexer" start eq_refl)).
Defined.

(** ** File names and their stems *)

Lemma rfind_dot_append (n s : string) (i : nat) :
  rfind_dot s = Some i ->
  rfind_dot (n ++ s) = Some (String.length n + i).
Proof.
  intros H. induction n as [|c n IH]; [exact H|].
  cbn [append rfind_dot String.length]. now rewrite IH.
Qed.

Lemma take_append (n s : string) : take (String.length n) (n ++ s) = n.
Proof.
  induction n as [|c n IH]; [now destruct s|].
  cbn [append String.length take]. now rewrite IH.
Qed.

(** A file [<name>.yaml] with a non-empty name is listed under its name;
    the file [.yaml] is listed under [.yaml]. *)
Lemma stem_yaml (name : string) :
  name <> "" -> stem (name ++ ".yaml") = name.
Proof.
  intros Hne. unfold stem.
  rewrite (rfind_dot_append name ".yaml" 0 eq_refl), length_append.
  destruct name as [|c name]; [now elim Hne|].
  cbn [String.length]. rewrite Nat.add_0_r.
  replace ((0 <? S (String.length name))%nat) with true
    by (symmetry; apply Nat.ltb_lt; lia).
  replace ((S (String.length name) <? S (String.length name) + 5 - 1)%nat)
    with true by (symmetry; apply Nat.ltb_lt; lia).
  cbn [andb]. apply (take_append (String c name)).
Qed.

Lemma stem_dot_yaml : stem ("" ++ ".yaml") = ".yaml".
Proof. reflexivity. Qed.

(** ** The batch driver *)

Lemma for_each_map {A B : Type} (f : A -> B) (xs : list A)
  (body : B -> M unit) :
  for_each (map f xs) body = for_each xs (fun x => body (f x)).
Proof.
  induction xs as [|x xs IH]; [reflexivity|].
  cbn [map for_each]. now rewrite IH.
Qed.

Lemma assemble_all_loop (env : Env) :
  assemble_all env
  = (queen_dna <- assemble_queen_dna env ;;
     save_dna env "queen" queen_dna None ;;
     architect_dna <- assemble_architect_dna env ;;
     save_dna env "architect" architect_dna None ;;
     worker_dna <- assemble_worker_dna env "general" ;;
     save_dna env "worker" worker_dna (Some "general") ;;
     for_each (spec_names env) (specialized_worker env)).
Proof.
  unfold assemble_all, spec_names. now rewrite for_each_map.
Qed.

Lemma for_each_app {A : Type} (xs ys : list A) (body : A -> M unit)
  (w : World) :
  for_each (xs ++ ys) body w
  = match for_each xs body w with
    | Ok _ w' => for_each ys body w'
    | Raise e w' => Raise e w'
    end.
Proof.
  revert w; induction xs as [|x xs IH]; intros w; [reflexivity|].
  cbn [List.app for_each]. unfold bind.
  destruct (body x w) as [[] w1|e w1]; [apply IH|reflexivity].
Qed.

(** The three ways one turn of the loop can go. *)
Lemma specialized_worker_cases (env : Env) (spec_name : string) (w : World) :
  (exists doc,
      assemble_worker_dna env spec_name w = Ok doc (tick w)
      /\ writable env (dna_filename "worker" (Some spec_name)) = true
      /\ specialized_worker env spec_name w
         = Ok tt {| ticks := S (ticks w);
                    written :=
                      (written w
                       ++ [(dna_filename "worker" (Some spec_name), doc)])%list
                 |})
  \/ (exists doc,
         assemble_worker_dna env spec_name w = Ok doc (tick w)
         /\ writable env (dna_filename "worker" (Some spec_name)) = false
         /\ specialized_worker env spec_name w = Raise OSError (tick w))
  \/ (exists e w',
         assemble_worker_dna env spec_name w = Raise e w'
         /\ written w' = written w
         /\ specialized_worker env spec_name w = Raise e w').
Proof.
  unfold specialized_worker, bind.
  destruct (assemble_worker_dna_cases env spec_name w) as [[vars E]|[E|E]];
    rewrite E.
  - unfold save_dna.
    destruct (writable env (dna_filename "worker" (Some spec_name))) eqn:Wr.
    + left. eexists. repeat split.
    + right; left. eexists. repeat split.
  - right; right. now exists AttributeError, (tick w).
  - right; right. now exists YAMLError, w.
Qed.

(** A loop that completes has only added files. *)
Lemma specialized_workers_extend (env : Env) (names : list string)
  (w w' : World) :
  for_each names (specialized_worker env) w = Ok tt w' ->
  exists log, written w' = (written w ++ log)%list.
Proof.
  revert w; induction names as [|x names IH]; intros w H.
  - injection H as <-. exists []%list. now rewrite app_nil_r.
  - cbn [for_each] in H. unfold bind in H.
    destruct (specialized_worker_cases env x w)
      as [(doc & _ & _ & E)|[(doc & _ & _ & E)|(e & w1 & _ & _ & E)]];
      rewrite E in H; try discriminate.
    destruct (IH _ H) as [log Hlog]. simpl in Hlog.
    exists ((dna_filename "worker" (Some x), doc) :: log)%list.
    now rewrite Hlog, <- List.app_assoc.
Qed.

Section FirstThree.

Variable env : Env.
Variable w : World.

Lemma assemble_all_queen_unwritable :
  writable env "queen.md" = false ->
  assemble_all env w = Raise OSError (tick w).
Proof.
  intros H. unfold assemble_all, bind. rewrite assemble_queen_dna_returns.
  unfold save_dna. cbn [dna_filename append]. now rewrite H.
Qed.

Lemma assemble_all_architect_unwritable :
  writable env "queen.md" = true ->
  writable env "architect.md" = false ->
  assemble_all env w
  = Raise OSError
      {| ticks := S (S (ticks w));
         written := (written w ++ [("queen.md", queen_document env (clock env (ticks w)))])%list |}.
Proof.
  intros Hq Ha. unfold assemble_all, bind.
  rewrite assemble_queen_dna_returns.
  unfold save_dna at 1. cbn [dna_filename append]. rewrite Hq.
  rewrite assemble_architect_dna_returns.
  unfold save_dna at 1. cbn [dna_filename append]. now rewrite Ha.
Qed.

Lemma assemble_all_general_unwritable :
  writable env "queen.md" = true ->
  writable env "architect.md" = true ->
  writable env "worker-general.md" = false ->
  assemble_all env w
  = Raise OSError
      {| ticks := S (S (S (ticks w)));
         written := (written w ++ [("queen.md", queen_document env (clock env (ticks w)));
                                   ("architect.md",
             architect_document env (clock env (S (ticks w))))])%list |}.
Proof.
  intros Hq Ha Hg. unfold assemble_all, bind.
  rewrite assemble_queen_dna_returns.
  unfold save_dna at 1. cbn [dna_filename append]. rewrite Hq.
  rewrite assemble_architect_dna_returns.
  unfold save_dna at 1. cbn [dna_filename append]. rewrite Ha.
  rewrite (assemble_worker_dna_dict env "general" []%list _ eq_refl).
  unfold save_dna at 1. cbn. rewrite Hg.
  now rewrite <- List.app_assoc.
Qed.

Lemma assemble_all_first_three :
  writable env "queen.md" = true ->
  writable env "architect.md" = true ->
  writable env "worker-general.md" = true ->
  assemble_all env w
  = for_each (spec_names env) (specialized_worker env)
      {| ticks := S (S (S (ticks w)));
         written := (written w ++ [("queen.md", queen_document env (clock env (ticks w)));
                                   ("architect.md",
             architect_document env (clock env (S (ticks w))));
                                   ("worker-general.md",
             default_worker_document env "general"
               (clock env (S (S (ticks w)))))])%list
      |}.
Proof.
  intros Hq Ha Hg. rewrite assemble_all_loop. unfold bind.
  rewrite assemble_queen_dna_returns.
  unfold save_dna at 1. cbn [dna_filename append]. rewrite Hq.
  rewrite assemble_architect_dna_returns.
  unfold save_dna at 1. cbn [dna_filename append]. rewrite Ha.
  rewrite (assemble_worker_dna_dict env "general" []%list _ eq_refl).
  unfold save_dna at 1. cbn. rewrite Hg.
  now rewrite <- !List.app_assoc.
Qed.

End FirstThree.

(** *** A document that cannot be written (C4) *)




(** *** The name ["general"] (C10) *)

(** C10.  The worker assembler never looks ["general"] up in the store:
    whatever the specialization files are, it returns the document with
    the default values of the variables.  When the store holds a file
    [general.yaml] and the batch completes, [worker-general.md] is written
    once before the loop and once more by the loop, both times with the
    default-valued document, each at the time the clock gave. *)
Theorem general_never_consults_store (env : Env) :
  (forall files w,
      assemble_worker_dna (with_specializations env files) "general" w
      = Ok (default_worker_document env "general" (clock env (ticks w)))
           (tick w))
  /\ (forall w,
         assemble_worker_dna env "general" w
         = Ok (default_worker_document env "general" (clock env (ticks w)))
              (tick w))
  /\ (forall w w' before file after,
         specializations_dir env = (before ++ ("general", file) :: after)%list ->
         assemble_all env w = Ok tt w' ->
         exists log1 log2 timestamp,
           written w'
           = (written w
              ++ [("queen.md", queen_document env (clock env (ticks w)));
                  ("architect.md",
                   architect_document env (clock env (S (ticks w))));
                  ("worker-general.md",
                   default_worker_document env "general"
                     (clock env (S (S (ticks w)))))]
              ++ log1
              ++ ("worker-general.md",
                  default_worker_document env "general" timestamp)
                 :: log2)%list).
Proof.
  split; [|split].
  - intros files w.
    exact (assemble_worker_dna_dict (with_specializations env files)
             "general" []%list w eq_refl).
  - intros w. exact (assemble_worker_dna_dict env "general" []%list w eq_refl).
  - intros w w' before file after Hfiles H.
    destruct (writable env "queen.md") eqn:Hq;
      [|now rewrite assemble_all_queen_unwritable in H].
    destruct (writable env "architect.md") eqn:Ha;
      [|now rewrite assemble_all_architect_unwritable in H].
    destruct (writable env "worker-general.md") eqn:Hg;
      [|now rewrite assemble_all_general_unwritable in H].
    rewrite assemble_all_first_three in H by assumption.
    unfold spec_names, glob_yaml in H.
    rewrite Hfiles, !map_app, for_each_app in H.
    match type of H with
    | match ?loop with _ => _ end = _ =>
        destruct loop as [[] w1|e w1] eqn:E1; [|discriminate]
    end.
    cbn [map fst for_each] in H.
    change (stem ("general" ++ ".yaml")) with "general" in H.
    unfold bind in H.
    destruct (specialized_worker_cases env "general" w1)
      as [(doc & Hdoc & _ & E)|[(doc & _ & _ & E)|(e & w2 & _ & _ & E)]];
      rewrite E in H; try discriminate.
    rewrite (assemble_worker_dna_dict env "general" []%list w1 eq_refl)
      in Hdoc.
    injection Hdoc as <-.
    destruct (specialized_workers_extend _ _ _ _ E1) as [log1 Hlog1].
    destruct (specialized_workers_extend _ _ _ _ H) as [log2 Hlog2].
    exists log1, log2, (clock env (ticks w1)).
    rewrite Hlog2. cbn [written]. rewrite Hlog1. cbn [written].
    rewrite <- !List.app_assoc. reflexivity.
Qed.

Lemma general_never_consults_store_witness :
  specializations_dir general_record_env
  = ([] ++ ("general", Parsed (YDict [("description", VStr "everything")]))
        :: [])%list
  /\ assemble_all general_record_env start
     = Ok tt (world_of (assemble_all general_record_env start))
  /\ exists log1 log2 timestamp,
      written (world_of (assemble_all general_record_env start))
      = (written start
         ++ [("queen.md",
              queen_document general_record_env
                (clock general_record_env (ticks start)));
             ("architect.md",
              architect_document general_record_env
                (clock general_record_env (S (ticks start))));
             ("worker-general.md",
              default_worker_document general_record_env "general"
                (clock general_record_env (S (S (ticks start)))))]
         ++ log1
         ++ ("worker-general.md",
             default_worker_document general_record_env "general" timestamp)
            :: log2)%list.
Proof.
  split; [reflexivity|]. split; [reflexivity|].
  apply (proj2 (proj2 (general_never_consults_store general_record_env))
           start _ []%list
           (Parsed (YDict [("description", VStr "everything")])) []%list);
    reflexivity.
Defined.

(** ** Further properties of the substituter *)

Lemma replace_absent (s old new : string) :
  old <> "" -> contains old s = false -> replace s old new = s.
Proof.
  intros Hold. induction s as [|c s IH]; intros H.
  - now apply replace_empty.
  - cbn [contains] in H. apply orb_false_iff in H. destruct H as [Hp Hs].
    rewrite replace_miss by assumption. now rewrite IH.
Qed.

(** X1.  A mapping none of whose placeholders occurs in the text gives the
    text back. *)
Theorem substitute_without_occurrence (t : string) (vars : dict) :
  (forall k, In k (keys vars) -> contains (placeholder k) t = false) ->
  substitute_variables t vars = t.
Proof.
  induction vars as [|[k v] vars IH]; intros H; [reflexivity|].
  rewrite substitute_variables_cons, replace_absent.
  - apply IH. intros k' Hk'. apply H. now right.
  - apply placeholder_nonempty.
  - apply H. now left.
Qed.

Lemma substitute_without_occurrence_witness :
  (forall k, In k (keys (queen_variables "now")) ->
             contains (placeholder k) "Read {{MANIFEST}} first." = false)
  /\ substitute_variables "Read {{MANIFEST}} first." (queen_variables "now")
     = "Read {{MANIFEST}} first.".
Proof.
  assert (H : forall k, In k (keys (queen_variables "now")) ->
                contains (placeholder k) "Read {{MANIFEST}} first." = false).
  { intros k Hk. simpl in Hk.
    repeat (destruct Hk as [<-|Hk]; [reflexivity|]). destruct Hk. }
  split; [exact H|].
  apply (substitute_without_occurrence "Read {{MANIFEST}} first."
           (queen_variables "now") H).
Defined.

Lemma role_variables_keys :
  (forall timestamp,
      incl (keys (queen_variables timestamp)) variable_names
      /\ identifier_keys (queen_variables timestamp) = true)
  /\ (forall timestamp,
         incl (keys (architect_variables timestamp)) variable_names
         /\ identifier_keys (architect_variables timestamp) = true)
  /\ (forall specialization timestamp description details focus_areas
         key_patterns,
         keys (worker_variables specialization timestamp description details
                 focus_areas key_patterns) = variable_names
         /\ identifier_keys
              (worker_variables specialization timestamp description details
                 focus_areas key_patterns) = true).
Proof.
  split; [|split].
  - intros timestamp. split; [|reflexivity].
    intros k Hk. simpl in Hk. unfold variable_names. simpl. tauto.
  - intros timestamp. split; [|reflexivity].
    intros k Hk. simpl in Hk. unfold variable_names. simpl. tauto.
  - intros. split; reflexivity.
Qed.

(** X2.  The placeholder of an identifier that is not the name of a variable
    stays as it is in every fragment of every role, the text on either
    side of it being substituted on its own. *)
Theorem unknown_placeholder_kept_by_roles (c t1 t2 : string) :
  brace_free c = true ->
  ~ In c variable_names ->
  (forall timestamp,
      substitute_variables (t1 ++ placeholder c ++ t2)
        (queen_variables timestamp)
      = substitute_variables t1 (queen_variables timestamp)
        ++ placeholder c
        ++ substitute_variables t2 (queen_variables timestamp))
  /\ (forall timestamp,
         substitute_variables (t1 ++ placeholder c ++ t2)
           (architect_variables timestamp)
         = substitute_variables t1 (architect_variables timestamp)
           ++ placeholder c
           ++ substitute_variables t2 (architect_variables timestamp))
  /\ (forall specialization timestamp description details focus_areas
         key_patterns,
         let variables :=
           worker_variables specialization timestamp description details
             focus_areas key_patterns in
         substitute_variables (t1 ++ placeholder c ++ t2) variables
         = substitute_variables t1 variables ++ placeholder c
           ++ substitute_variables t2 variables).
Proof.
  intros Hc Hin.
  destruct role_variables_keys as (Hq & Ha & Hw).
  split; [|split].
  - intros timestamp. destruct (Hq timestamp) as [Hincl Hid].
    apply substitute_absent; auto.
  - intros timestamp. destruct (Ha timestamp) as [Hincl Hid].
    apply substitute_absent; auto.
  - intros specialization timestamp description details focus_areas
      key_patterns variables.
    destruct (Hw specialization timestamp description details focus_areas
                key_patterns) as [Hkeys Hid].
    apply substitute_absent; auto.
Qed.

Lemma unknown_placeholder_kept_by_roles_witness :
  brace_free "MANIFEST" = true
  /\ ~ In "MANIFEST" variable_names
  /\ substitute_variables ("{{AGENT_TYPE}} reads " ++ placeholder "MANIFEST"
                            ++ " as {{AGENT_ID}}")
       (queen_variables "now")
     = substitute_variables "{{AGENT_TYPE}} reads " (queen_variables "now")
       ++ placeholder "MANIFEST"
       ++ substitute_variables " as {{AGENT_ID}}" (queen_variables "now").
Proof.
  assert (H : ~ In "MANIFEST" variable_names).
  { unfold variable_names. simpl. intuition discriminate. }
  split; [reflexivity|]. split; [exact H|].
  apply (proj1 (unknown_placeholder_kept_by_roles "MANIFEST"
                  "{{AGENT_TYPE}} reads " " as {{AGENT_ID}}" eq_refl H)).
Defined.

(** X3.  The variable whose pass is the last one has its value put in verbatim:
    [TOOL_ACCESS] for the coordinator and the designer, and for the worker
    [KEY_PATTERNS], whatever the specialization file holds for it. *)
Theorem last_variable_verbatim (t1 t2 : string) :
  (forall timestamp,
      substitute_variables (t1 ++ placeholder "TOOL_ACCESS" ++ t2)
        (queen_variables timestamp)
      = substitute_variables t1 (queen_variables timestamp)
        ++ "Read, Bash (for make vision/enforce)"
        ++ substitute_variables t2 (queen_variables timestamp))
  /\ (forall timestamp,
         substitute_variables (t1 ++ placeholder "TOOL_ACCESS" ++ t2)
           (architect_variables timestamp)
         = substitute_variables t1 (architect_variables timestamp)
           ++ "Read, Write (for design docs)"
           ++ substitute_variables t2 (architect_variables timestamp))
  /\ (forall specialization timestamp description details focus_areas
         key_patterns,
         let variables :=
           worker_variables specialization timestamp description details
             focus_areas key_patterns in
         substitute_variables (t1 ++ placeholder "KEY_PATTERNS" ++ t2)
           variables
         = substitute_variables t1 variables ++ str key_patterns
           ++ substitute_variables t2 variables).
Proof.
  assert (Hnot : forall (k : string) (l : list string),
             forallb (fun x => negb (x =? k)) l = true -> ~ In k l).
  { intros k l H Hin. rewrite forallb_forall in H.
    specialize (H k Hin). now rewrite String.eqb_refl in H. }
  split; [|split].
  - intros timestamp.
    refine (substitute_last "TOOL_ACCESS"
              (VStr "Read, Bash (for make vision/enforce)")
              (removelast (queen_variables timestamp)) t1 t2 eq_refl _).
    now apply Hnot.
  - intros timestamp.
    refine (substitute_last "TOOL_ACCESS"
              (VStr "Read, Write (for design docs)")
              (removelast (architect_variables timestamp)) t1 t2 eq_refl _).
    now apply Hnot.
  - intros specialization timestamp description details focus_areas
      key_patterns variables.
    refine (substitute_last "KEY_PATTERNS" key_patterns
              (removelast variables) t1 t2 eq_refl _).
    now apply Hnot.
Qed.

(** ** Further properties of the composer and the assemblers *)

(** X4.  When none of the components loads to a text, the document is the
    protocol reference and nothing else: no separator comes before it. *)
Theorem no_component_only_closing (env : Env) (components : list string)
  (variables : dict) :
  (forall c, In c components -> load_component env c = "") ->
  _assemble_dna env components variables = protocol_reference.
Proof.
  intros H. rewrite _assemble_dna_laid_out.
  assert (E : sections_of env components variables = []%list).
  { induction components as [|c comps IH]; [reflexivity|].
    rewrite sections_of_cons, (H c) by now left.
    apply IH. intros c' Hc'. apply H. now right. }
  now rewrite E.
Qed.

Lemma no_component_only_closing_witness :
  (forall c, In c ["queen-capabilities"; "queen-output"] ->
             load_component example_env c = "")
  /\ _assemble_dna example_env ["queen-capabilities"; "queen-output"]
       (queen_variables "now")
     = protocol_reference.
Proof.
  assert (H : forall c, In c ["queen-capabilities"; "queen-output"] ->
                load_component example_env c = "").
  { intros c [<-|[<-|[]]]; reflexivity. }
  split; [exact H|].
  apply (no_component_only_closing example_env
           ["queen-capabilities"; "queen-output"]%list
           (queen_variables "now") H).
Defined.

(** X5.  A component is skipped when its file is empty, not when its
    substituted text is: a component whose text the substitution empties
    still gives a section, so the document starts with the separator. *)
Theorem emptied_component_keeps_its_section (env : Env) (c : string)
  (rest : list string) (variables : dict) :
  load_component env c <> "" ->
  substitute_variables (load_component env c) variables = "" ->
  _assemble_dna env (c :: rest) variables
  = (nl ++ nl) ++ _assemble_dna env rest variables.
Proof.
  intros Hne Hsub. rewrite !_assemble_dna_laid_out, sections_of_cons.
  unfold truthy. apply String.eqb_neq in Hne. rewrite Hne. cbn [negb].
  rewrite Hsub. reflexivity.
Qed.

Lemma emptied_component_keeps_its_section_witness :
  load_component placeholder_only_env "note" <> ""
  /\ substitute_variables (load_component placeholder_only_env "note")
       [("KEY_PATTERNS", VStr "")] = ""
  /\ _assemble_dna placeholder_only_env ["note"; "base-header"]
       [("KEY_PATTERNS", VStr "")]
     = (nl ++ nl)
       ++ _assemble_dna placeholder_only_env ["base-header"]
            [("KEY_PATTERNS", VStr "")].
Proof.
  split; [discriminate|]. split; [reflexivity|].
  apply (emptied_component_keeps_its_section placeholder_only_env "note"
           ["base-header"]%list [("KEY_PATTERNS", VStr "")]%list).
  - discriminate.
  - reflexivity.
Defined.

(** X6.  The role assemblers write no file, and each reads the clock once,
    except that the worker assembler does not get to read it when the
    specialization file is not YAML. *)
Theorem assemblers_only_read (env : Env) (w : World) :
  world_of (assemble_queen_dna env w) = tick w
  /\ world_of (assemble_architect_dna env w) = tick w
  /\ forall specialization,
      written (world_of (assemble_worker_dna env specialization w))
      = written w
      /\ (world_of (assemble_worker_dna env specialization w) = tick w
          \/ assemble_worker_dna env specialization w = Raise YAMLError w).
Proof.
  split; [reflexivity|]. split; [reflexivity|].
  intros specialization.
  destruct (assemble_worker_dna_cases env specialization w)
    as [[vars E]|[E|E]]; rewrite E; simpl; auto.
Qed.

Lemma _assemble_dna_with_specializations (env : Env)
  (files : list (string * yaml_file)) (comps : list string) (vars : dict) :
  _assemble_dna (with_specializations env files) comps vars
  = _assemble_dna env comps vars.
Proof.
  unfold _assemble_dna. f_equal. f_equal. generalize (@nil string).
  induction comps as [|c comps IH]; intros acc; [reflexivity|].
  cbn [collect_sections].
  change (load_component (with_specializations env files) c)
    with (load_component env c).
  destruct (truthy (load_component env c)); apply IH.
Qed.

(** X7.  The worker assembler looks at four attributes of the specialization
    record and at nothing else in it: two stores whose records for the
    specialization give the same four values, an attribute that is
    missing counting for its default, make it return the same. *)
Theorem worker_reads_four_attributes (env : Env)
  (files1 files2 : list (string * yaml_file)) (specialization : string)
  (d1 d2 : dict) (w : World) :
  lookup_file files1 specialization = Some (Parsed (YDict d1)) ->
  lookup_file files2 specialization = Some (Parsed (YDict d2)) ->
  dict_get d1 "description" (VStr "general implementation")
  = dict_get d2 "description" (VStr "general implementation") ->
  dict_get d1 "details" (VStr "") = dict_get d2 "details" (VStr "") ->
  dict_get d1 "focus_areas" (VStr "") = dict_get d2 "focus_areas" (VStr "") ->
  dict_get d1 "key_patterns" (VStr "")
  = dict_get d2 "key_patterns" (VStr "") ->
  assemble_worker_dna (with_specializations env files1) specialization w
  = assemble_worker_dna (with_specializations env files2) specialization w.
Proof.
  intros H1 H2 E1 E2 E3 E4.
  destruct (negb (specialization =? "general")) eqn:G.
  - rewrite (assemble_worker_dna_dict (with_specializations env files1)
               specialization d1 w)
      by (rewrite G; now apply load_specialization_dict).
    rewrite (assemble_worker_dna_dict (with_specializations env files2)
               specialization d2 w)
      by (rewrite G; now apply load_specialization_dict).
    rewrite E1, E2, E3, E4, !_assemble_dna_with_specializations.
    reflexivity.
  - rewrite (assemble_worker_dna_dict (with_specializations env files1)
               specialization []%list w) by now rewrite G.
    rewrite (assemble_worker_dna_dict (with_specializations env files2)
               specialization []%list w) by now rewrite G.
    rewrite !_assemble_dna_with_specializations. reflexivity.
Qed.

Lemma worker_reads_four_attributes_witness :
  assemble_worker_dna
    (with_specializations example_env
       [("lexer", Parsed (YDict [("description", VStr "lexing")]))])
    "lexer" start
  = assemble_worker_dna
      (with_specializations example_env
         [("lexer",
           Parsed (YDict [("owner", VStr "team");
                          ("details", VStr "");
                          ("description", VStr "lexing")]))])
      "lexer" start.
Proof.
  apply (worker_reads_four_attributes example_env _ _ "lexer"
           [("description", VStr "lexing")]%list
           [("owner", VStr "team"); ("details", VStr "");
            ("description", VStr "lexing")]%list start);
    reflexivity.
Defined.

(** ** Further properties of the writer *)

Lemma append_inv_tail (a b c : string) : a ++ c = b ++ c -> a = b.
Proof.
  revert b; induction a as [|x a IH]; intros [|y b] H.
  - reflexivity.
  - exfalso. apply (f_equal String.length) in H.
    cbn [append String.length] in H. rewrite length_append in H. lia.
  - exfalso. apply (f_equal String.length) in H.
    cbn [append String.length] in H. rewrite length_append in H. lia.
  - cbn [append] in H. injection H as -> H. f_equal. now apply IH.
Qed.

(** X8.  Worker documents of different specializations go to different files,
    and never to the file of the coordinator or of the designer; for any
    other role, and for a worker with an empty specialization, the
    specialization has no part in the name. *)
Theorem dna_filename_separates (s1 s2 : string) :
  (s1 <> "" -> s2 <> "" ->
   dna_filename "worker" (Some s1) = dna_filename "worker" (Some s2) ->
   s1 = s2)
  /\ dna_filename "worker" (Some s1) <> dna_filename "queen" None
  /\ dna_filename "worker" (Some s1) <> dna_filename "architect" None
  /\ (forall role, role <> "worker" ->
                   dna_filename role (Some s1) = dna_filename role None)
  /\ dna_filename "worker" (Some "") = dna_filename "worker" None.
Proof.
  split; [|split; [|split; [|split]]].
  - intros H1 H2. unfold dna_filename, truthy.
    apply String.eqb_neq in H1, H2. rewrite H1, H2. cbn.
    intros H. injection H as H. now apply append_inv_tail in H.
  - unfold dna_filename. destruct (truthy s1); discriminate.
  - unfold dna_filename. destruct (truthy s1); discriminate.
  - intros role H. unfold dna_filename.
    apply String.eqb_neq in H. now rewrite H.
  - reflexivity.
Qed.

Lemma dna_filename_separates_witness :
  "parser" <> "" /\ "parser" <> ""
  /\ (dna_filename "worker" (Some "parser")
      = dna_filename "worker" (Some "parser") ->
      "parser" = "parser")
  /\ dna_filename "queen" (Some "parser") = dna_filename "queen" None.
Proof.
  split; [discriminate|]. split; [discriminate|]. split.
  - apply (proj1 (dna_filename_separates "parser" "parser")); discriminate.
  - apply (proj1 (proj2 (proj2 (proj2
             (dna_filename_separates "parser" "parser")))) "queen").
    discriminate.
Defined.

(** ** Further properties of the batch driver *)

Lemma lookup_file_all_mappings (files : list (string * yaml_file))
  (name : string) :
  all_mappings files = true ->
  lookup_file files name = None
  \/ exists d, lookup_file files name = Some (Parsed (YDict d)).
Proof.
  induction files as [|[n f] files IH]; intros Hall; [now left|].
  cbn [all_mappings forallb snd] in Hall.
  apply andb_true_iff in Hall. destruct Hall as [Hf Hall].
  cbn [lookup_file]. destruct (n =? name).
  - right. destruct f as [|[d|]]; try discriminate. now exists d.
  - now apply IH.
Qed.

Lemma assemble_worker_dna_mapping (env : Env) (name : string) (w : World) :
  lookup_file (specializations_dir env) name = None
  \/ (exists d,
         lookup_file (specializations_dir env) name
         = Some (Parsed (YDict d))) ->
  exists doc, assemble_worker_dna env name w = Ok doc (tick w).
Proof.
  intros H. destruct (negb (name =? "general")) eqn:G.
  - destruct H as [H|[d H]].
    + eexists. apply (assemble_worker_dna_dict env name []%list).
      rewrite G. now apply load_specialization_absent.
    + eexists. apply (assemble_worker_dna_dict env name d).
      rewrite G. now apply load_specialization_dict.
  - eexists. apply (assemble_worker_dna_dict env name []%list).
    now rewrite G.
Qed.

Lemma specialized_workers_complete (env : Env) (names : list string)
  (w : World) :
  (forall filename, writable env filename = true) ->
  all_mappings (specializations_dir env) = true ->
  exists w',
    for_each names (specialized_worker env) w = Ok tt w'
    /\ ticks w' = ticks w + List.length names
    /\ map fst (written w')
       = (map fst (written w)
          ++ map (fun name => dna_filename "worker" (Some name)) names)%list.
Proof.
  intros Hw Hall. revert w. induction names as [|name names IH]; intros w.
  - exists w. cbn. now rewrite Nat.add_0_r, app_nil_r.
  - destruct (assemble_worker_dna_mapping env name w
                (lookup_file_all_mappings _ name Hall)) as [doc Hdoc].
    cbn [for_each]. unfold bind at 1. unfold specialized_worker at 1.
    unfold bind at 1. rewrite Hdoc. unfold save_dna. rewrite Hw.
    match goal with
    | |- exists w', for_each _ _ ?w1 = _ /\ _ =>
        destruct (IH w1) as (w' & Hrun & Hticks & Hnames)
    end.
    exists w'. split; [exact Hrun|]. cbn [ticks written] in Hticks, Hnames.
    split.
    + rewrite Hticks. cbn [tick ticks List.length]. lia.
    + rewrite Hnames, map_app, <- List.app_assoc. reflexivity.
Qed.

(** X9.  When every file can be written and every specialization file holds a
    mapping, the batch completes: it reads the clock once per document
    and writes, in this order, the coordinator, the designer, the general
    worker and one worker per specialization file, in the order of the
    listing and under the stem of the file's name. *)
Theorem batch_completes (env : Env) (w : World) :
  (forall filename, writable env filename = true) ->
  all_mappings (specializations_dir env) = true ->
  exists w',
    assemble_all env w = Ok tt w'
    /\ ticks w' = ticks w + 3 + List.length (specializations_dir env)
    /\ map fst (written w')
       = (map fst (written w)
          ++ ["queen.md"; "architect.md"; "worker-general.md"]
          ++ map (fun nf =>
                    dna_filename "worker" (Some (stem (fst nf ++ ".yaml"))))
               (specializations_dir env))%list.
Proof.
  intros Hw Hall.
  rewrite assemble_all_first_three by apply Hw.
  match goal with
  | |- exists w', for_each ?names _ ?w3 = _ /\ _ =>
      destruct (specialized_workers_complete env names w3 Hw Hall)
        as (w' & Hrun & Hticks & Hnames)
  end.
  exists w'. split; [exact Hrun|]. cbn [ticks written] in Hticks, Hnames.
  split.
  - rewrite Hticks. unfold spec_names, glob_yaml. rewrite !length_map. lia.
  - rewrite Hnames, !map_app. unfold spec_names, glob_yaml.
    rewrite !map_map, <- List.app_assoc. reflexivity.
Qed.

Lemma batch_completes_witness :
  (forall filename, writable general_record_env filename = true)
  /\ all_mappings (specializations_dir general_record_env) = true
  /\ exists w',
      assemble_all general_record_env start = Ok tt w'
      /\ ticks w'
         = ticks start + 3
           + List.length (specializations_dir general_record_env)
      /\ map fst (written w')
         = (map fst (written start)
            ++ ["queen.md"; "architect.md"; "worker-general.md"]
            ++ map (fun nf =>
                      dna_filename "worker"
                        (Some (stem (fst nf ++ ".yaml"))))
                 (specializations_dir general_record_env))%list.
Proof.
  split; [reflexivity|]. split; [reflexivity|].
  apply (batch_completes general_record_env start); reflexivity.
Defined.

(** X10.  A specialization file that holds no mapping, or that is not YAML,
    ends the batch when the loop reaches it: the exception of the worker
    assembler goes through, the files written up to there stay, and
    nothing is written for this specialization or the ones after it. *)
Theorem unreadable_specialization_stops_batch (env : Env) (w : World)
  (done rest : list string) (name : string) (reached : World) :
  writable env "queen.md" = true ->
  writable env "architect.md" = true ->
  writable env "worker-general.md" = true ->
  spec_names env = (done ++ name :: rest)%list ->
  for_each done (specialized_worker env)
    {| ticks := S (S (S (ticks w)));
       written :=
         (written w
          ++ [("queen.md", queen_document env (clock env (ticks w)));
              ("architect.md",
               architect_document env (clock env (S (ticks w))));
              ("worker-general.md",
               default_worker_document env "general"
                 (clock env (S (S (ticks w)))))])%list |}
  = Ok tt reached ->
  name <> "general" ->
  (lookup_file (specializations_dir env) name = Some (Parsed YNotDict) ->
   assemble_all env w = Raise AttributeError (tick reached))
  /\ (lookup_file (specializations_dir env) name = Some Malformed ->
      assemble_all env w = Raise YAMLError reached).
Proof.
  intros Hq Ha Hg Hnames Hdone Hne.
  rewrite assemble_all_first_three by assumption.
  rewrite Hnames, for_each_app, Hdone. cbn [for_each]. unfold bind.
  unfold specialized_worker, bind. split; intros H.
  - rewrite assemble_worker_dna_not_dict; [reflexivity|].
    rewrite (not_general _ Hne). unfold load_specialization. now rewrite H.
  - rewrite assemble_worker_dna_malformed; [reflexivity|].
    rewrite (not_general _ Hne). unfold load_specialization. now rewrite H.
Qed.

Lemma unreadable_specialization_stops_batch_witness :
  spec_names example_env = (["parser"] ++ "blank" :: ["broken"])%list
  /\ "blank" <> "general"
  /\ lookup_file (specializations_dir example_env) "blank"
     = Some (Parsed YNotDict)
  /\ map fst (written (world_of (assemble_all example_env start)))
     = ["queen.md"; "architect.md"; "worker-general.md";
        "worker-parser.md"]%list
  /\ assemble_all example_env start
     = Raise AttributeError
         (tick (world_of
                  (for_each ["parser"] (specialized_worker example_env)
                     {| ticks := 3;
                        written :=
                          [("queen.md",
                            queen_document example_env "2024-01-01T00:00:00");
                           ("architect.md",
                            architect_document example_env
                              "2024-01-01T00:00:00");
                           ("worker-general.md",
                            default_worker_document example_env "general"
                              "2024-01-01T00:00:00")] |}))).
Proof.
  split; [reflexivity|]. split; [discriminate|]. split; [reflexivity|].
  split; [reflexivity|].
  apply (proj1 (unreadable_specialization_stops_batch example_env start
                  ["parser"]%list ["broken"]%list "blank" _
                  eq_refl eq_refl eq_refl eq_refl eq_refl
                  (fun H => ltac:(discriminate H))));
    reflexivity.
Defined.

Lemma grown_from_refl (env : Env) (w : World) : grown_from env w w.
Proof. exists []%list. split; [now rewrite app_nil_r|constructor]. Qed.

(** A step that leaves the written files alone keeps [grown_from]. *)
Lemma keeps_grown_reader {A : Type} (env : Env) (w0 : World) (m : M A) :
  (forall w, written (world_of (m w)) = written w) ->
  keeps (grown_from env w0) m (fun _ => True).
Proof.
  intros Hm w (log & Hlog & Hall). split; [|trivial].
  exists log. split; [|exact Hall]. now rewrite Hm.
Qed.

Lemma keeps_grown_save_dna (env : Env) (w0 : World) (role content : string)
  (specialization : option string) :
  batch_filename env (dna_filename role specialization) ->
  keeps (grown_from env w0) (save_dna env role content specialization)
    (fun _ => True).
Proof.
  intros Hname w (log & Hlog & Hall). split; [|trivial].
  unfold save_dna.
  destruct (writable env (dna_filename role specialization)); cbn.
  - exists (log ++ [(dna_filename role specialization, content)])%list.
    split; [now rewrite Hlog, List.app_assoc|].
    rewrite map_app. apply Forall_app. split; [exact Hall|].
    constructor; [exact Hname|constructor].
  - now exists log.
Qed.

Lemma assemble_worker_dna_written (env : Env) (specialization : string)
  (w : World) :
  written (world_of (assemble_worker_dna env specialization w)) = written w.
Proof.
  destruct (assemble_worker_dna_cases env specialization w)
    as [[vars E]|[E|E]]; now rewrite E.
Qed.

Lemma keeps_grown_specialized_worker (env : Env) (w0 : World)
  (name : string) :
  name = "general" \/ In name (spec_names env) ->
  keeps (grown_from env w0) (specialized_worker env name) (fun _ => True).
Proof.
  intros Hname. unfold specialized_worker.
  eapply keeps_bind.
  - apply keeps_grown_reader. apply assemble_worker_dna_written.
  - intros doc _. apply keeps_grown_save_dna.
    right; right. now exists name.
Qed.

Lemma keeps_grown_loop (env : Env) (w0 : World) (names : list string) :
  incl names (spec_names env) ->
  keeps (grown_from env w0) (for_each names (specialized_worker env))
    (fun _ => True).
Proof.
  induction names as [|name names IH]; intros Hincl; cbn [for_each].
  - now apply keeps_ret.
  - eapply keeps_bind.
    + apply keeps_grown_specialized_worker. right. apply Hincl. now left.
    + intros _ _. apply IH. intros n Hn. apply Hincl. now right.
Qed.

(** X11.  Whether the batch completes or raises, the files that were there stay,
    in their order, and each file it adds is the coordinator's, the
    designer's or the worker's file of ["general"] or of a specialization
    of the listing. *)
Theorem batch_only_adds_its_files (env : Env) (w : World) :
  grown_from env w (world_of (assemble_all env w)).
Proof.
  assert (H : keeps (grown_from env w) (assemble_all env) (fun _ => True)).
  { rewrite assemble_all_loop.
    eapply keeps_bind; [now apply keeps_grown_reader|]. intros d1 _.
    eapply keeps_bind;
      [apply keeps_grown_save_dna; now left|]. intros _ _.
    eapply keeps_bind; [now apply keeps_grown_reader|]. intros d2 _.
    eapply keeps_bind;
      [apply keeps_grown_save_dna; right; now left|]. intros _ _.
    eapply keeps_bind;
      [apply keeps_grown_reader, assemble_worker_dna_written|].
    intros d3 _.
    eapply keeps_bind.
    { apply keeps_grown_save_dna. right; right. exists "general". auto. }
    intros _ _. apply keeps_grown_loop. apply incl_refl. }
  apply H, grown_from_refl.
Qed.

(** ** The command line *)

(** X12.  With [--help] as the first argument after the program name, [main]
    reads no clock and writes no file, whatever the directory; with any
    other command line, [--help] further on included, it runs the
    batch. *)
Theorem main_help_runs_nothing (env : Env) :
  (forall prog rest w, main env (prog :: "--help" :: rest) w = Ok tt w)
  /\ (forall argv,
         nth_error argv 1 <> Some "--help" ->
         main env argv = assemble_all env).
Proof.
  split; [reflexivity|].
  intros [|prog [|arg rest]] H; try reflexivity.
  unfold main. cbn [List.length Nat.ltb Nat.leb nth andb].
  cbn [nth_error] in H.
  destruct (String.eqb_spec arg "--help") as [->|Hne]; [now elim H|].
  reflexivity.
Qed.

Lemma main_help_runs_nothing_witness :
  nth_error ["assemble-dna.py"; "-v"; "--help"] 1 <> Some "--help"
  /\ main example_env ["assemble-dna.py"; "-v"; "--help"]
     = assemble_all example_env.
Proof.
  split; [discriminate|].
  apply (proj2 (main_help_runs_nothing example_env)
           ["assemble-dna.py"; "-v"; "--help"]%list).
  discriminate.
Defined.
